(** * Buffer allocator of the nRF 802.15.4 serialization layer

    A shallow embedding of [nrf_802154_buffer_allocator.c] and the
    verification of its specification.

    The pool is an array of [nrf_802154_buffer_t] laid over caller memory.
    The array is modelled as a list of records, addresses as integers, and
    the three entry points as functions on an explicit machine state.  The
    integer types are those of the target, an Arm Cortex-M core: [size_t],
    [uintptr_t] and [uint32_t] are all 32 bits wide. *)

From Stdlib Require Import ZArith Lia.
From stdpp Require Import base list.

Local Open Scope Z_scope.

(** ** Results of running a function *)

(** A call either returns, aborts in [assert], touches memory that is not
    there, or is cut off by the fuel of the model. *)
Inductive outcome (A : Type) : Type :=
| Ret (a : A)
| AssertFail
| Fault
| OutOfFuel.

Arguments Ret {A} a.
Arguments AssertFail {A}.
Arguments Fault {A}.
Arguments OutOfFuel {A}.

Definition bind {A B : Type} (m : outcome A) (k : A -> outcome B) : outcome B :=
  match m with
  | Ret a => k a
  | AssertFail => AssertFail
  | Fault => Fault
  | OutOfFuel => OutOfFuel
  end.

Notation "'let*' x := m 'in' k" := (bind m (fun x => k))
  (at level 10, x name, m at level 100, k at level 200).
Notation "'let*' ' p := m 'in' k" := (bind m (fun x => let 'p := x in k))
  (at level 10, p pattern, m at level 100, k at level 200).

(** ** Machine integers *)

Definition UINT32_MOD : Z := 2 ^ 32.

(** Unsigned 32-bit wrap-around, used for [uint32_t], [size_t] and
    [uintptr_t] arithmetic. *)
Definition wrap32 (z : Z) : Z := z mod UINT32_MOD.

Definition NULL : Z := 0.

(** ** Data model *)

(** [nrf_802154_buffer_t]: one slot of the pool. *)
Record nrf_802154_buffer_t : Type := Buffer {
  data : list Byte.byte;
  taken : bool
}.

(** [nrf_802154_buffer_allocator_t]: the allocator object. *)
Record nrf_802154_buffer_allocator_t : Type := Allocator {
  p_memory : Z;
  capacity : Z
}.

(** The machine state the allocator acts on: the caller's memory seen as an
    array of slots, the interrupt mask of the core ([true]: interrupts are
    disabled) and the file-scope variable [m_critical_section]. *)
Record world : Type := World {
  heap : list nrf_802154_buffer_t;
  PRIMASK : bool;
  m_critical_section : bool
}.

Definition set_heap (h : list nrf_802154_buffer_t) (w : world) : world :=
  World h (PRIMASK w) (m_critical_section w).

Definition set_taken (v : bool) (b : nrf_802154_buffer_t) : nrf_802154_buffer_t :=
  Buffer (data b) v.

(** The local variables of [buffer_alloc]. *)
Record locals : Type := Locals {
  p_buffer : Z;
  success : bool;
  retry : bool
}.

Definition set_p_buffer (p : Z) (l : locals) : locals :=
  Locals p (success l) (retry l).
Definition set_success (v : bool) (l : locals) : locals :=
  Locals (p_buffer l) v (retry l).
Definition set_retry (v : bool) (l : locals) : locals :=
  Locals (p_buffer l) (success l) v.

(** ** Pre-emption

    Between two statements of [buffer_alloc] a context of higher priority
    may run, as long as interrupts are enabled.  The places where that can
    change what [buffer_alloc] observes are named; an environment says what
    the pre-empting context does to the machine at each of them. *)
Inductive site : Type :=
| BeforeCheck (round : nat) (i : Z)   (* before the read of line 92 *)
| Window (round : nat)                (* between line 92 and line 95 *)
| Locked (round : nat).               (* between line 97 and line 106 *)

Definition environment : Type := site -> world -> world.

(** Nothing pre-empts: the sequential execution. *)
Definition idle : environment := fun _ w => w.

(** A pre-empting context runs only when interrupts are not masked. *)
Definition preempt (env : environment) (s : site) (w : world) : world :=
  if PRIMASK w then w else env s w.

(** Reads and writes of [p_buffer_pool[i].taken]. *)
Definition load_taken (i : Z) (w : world) : outcome bool :=
  match heap w !! Z.to_nat i with
  | Some b => Ret (taken b)
  | None => Fault
  end.

Definition store_taken (i : Z) (v : bool) (w : world) : outcome world :=
  match heap w !! Z.to_nat i with
  | Some b => Ret (set_heap (<[Z.to_nat i := set_taken v b]> (heap w)) w)
  | None => Fault
  end.

(** ** A pool of three slots, for the examples *)

Definition demo_pool : nrf_802154_buffer_allocator_t := Allocator 4096 3.

Definition demo_heap (t0 t1 t2 : bool) : list nrf_802154_buffer_t :=
  [Buffer [] t0; Buffer [] t1; Buffer [] t2].

Definition demo_world (t0 t1 t2 : bool) : world :=
  World (demo_heap t0 t1 t2) false false.

Section Allocator.

(** The header that declares [nrf_802154_buffer_t] is not part of the
    sources at hand, so the layout of a slot is a parameter:
    [slot_size] is [sizeof(nrf_802154_buffer_t)] and [data_offset] is
    [offsetof(nrf_802154_buffer_t, data)]. *)
Variable slot_size : Z.
Variable data_offset : Z.

(** [CONFIG_NRF_802154_SER_BUFFER_ALLOCATOR_THREAD_SAFE]. *)
Variable THREAD_SAFE : bool.

(** ** Critical section *)

Definition critical_section_enter (w : world) : world :=
  if THREAD_SAFE
  then World (heap w) true (PRIMASK w)
  else w.

Definition critical_section_exit (w : world) : world :=
  if THREAD_SAFE
  then World (heap w) (m_critical_section w) (m_critical_section w)
  else w.

(** ** [buffer_alloc] *)

Section Alloc.

Variable env : environment.
Variable p_buffer_pool : Z.
Variable buffer_pool_len : Z.

(** The [for] loop of lines 88-114, entered at index [i].  Every execution
    of the body spends one unit of fuel.  [p_buffer] is [&p_buffer_pool[i]],
    so [p_buffer->taken] is the flag of slot [i]. *)
Fixpoint for_loop (fuel : nat) (round : nat) (i : Z) (l : locals) (w : world)
  : outcome (locals * world) :=
  if i <? buffer_pool_len then
    match fuel with
    | O => OutOfFuel
    | S fuel' =>
      let l := set_p_buffer (p_buffer_pool + i * slot_size) l in
      let w := preempt env (BeforeCheck round i) w in
      let* t := load_taken i w in
      if negb t then
        let w := preempt env (Window round) w in
        let w := critical_section_enter w in
        let* t' := load_taken i w in
        if t' then
          Ret (set_retry true l, critical_section_exit w)
        else
          let w := preempt env (Locked round) w in
          let* w := store_taken i true w in
          Ret (set_success true l, critical_section_exit w)
      else
        for_loop fuel' round (wrap32 (i + 1)) l w
    end
  else Ret (l, w).

(** The [do ... while (retry)] loop of lines 83-115.  Every execution of
    the body spends one unit of [rounds]. *)
Fixpoint do_while (rounds : nat) (steps : nat) (round : nat) (l : locals) (w : world)
  : outcome (locals * world) :=
  match rounds with
  | O => OutOfFuel
  | S rounds' =>
    let l := set_retry false l in
    let* '(l, w) := for_loop steps round 0 l w in
    if retry l then do_while rounds' steps (S round) l w else Ret (l, w)
  end.

Definition initial_locals : locals := Locals NULL false false.

(** The loops of [buffer_alloc], up to the [return] statement. *)
Definition buffer_alloc_loops (rounds steps : nat) (w : world)
  : outcome (locals * world) :=
  do_while rounds steps O initial_locals w.

(** Line 117: [p_buffer->data] is evaluated only when [success] holds;
    evaluating it through a null [p_buffer] is a fault. *)
Definition return_value (l : locals) : outcome Z :=
  if success l then
    if p_buffer l =? NULL then Fault else Ret (p_buffer l + data_offset)
  else Ret NULL.

Definition buffer_alloc (rounds steps : nat) (w : world) : outcome (Z * world) :=
  let* '(l, w) := buffer_alloc_loops rounds steps w in
  let* r := return_value l in
  Ret (r, w).

End Alloc.

(** ** [buffer_free] *)

Definition buffer_free (p_buffer_to_free p_buffer_pool buffer_pool_len : Z) (w : world)
  : outcome world :=
  let idx := wrap32 (p_buffer_to_free - p_buffer_pool) / slot_size in
  if idx <? buffer_pool_len then
    let w := critical_section_enter w in
    let* w := store_taken idx false w in
    Ret (critical_section_exit w)
  else AssertFail.

(** ** The public interface *)

(** The loop of lines 149-152. *)
Fixpoint init_loop (fuel : nat) (i : Z) (cap : Z) (w : world) : outcome world :=
  if i <? cap then
    match fuel with
    | O => OutOfFuel
    | S fuel' =>
      let* w := store_taken i false w in
      init_loop fuel' (wrap32 (i + 1)) cap w
    end
  else Ret w.

Definition nrf_802154_buffer_allocator_init (mem : Z) (memsize : Z) (w : world)
  : outcome (nrf_802154_buffer_allocator_t * world) :=
  let cap := memsize / slot_size in
  if (cap =? 0) || (negb (cap =? 0) && negb (mem =? NULL)) then
    let p_obj := Allocator mem cap in
    let* w := init_loop (Z.to_nat (capacity p_obj)) 0 (capacity p_obj) w in
    Ret (p_obj, w)
  else AssertFail.

(** A call that nothing pre-empts: one pass of the [do]-[while] body and one
    unit of fuel per slot.  [buffer_alloc_idle_claims] and
    [buffer_alloc_idle_exhausted] show that this fuel is enough and that
    more of it changes nothing. *)
Definition nrf_802154_buffer_allocator_alloc (p_obj : nrf_802154_buffer_allocator_t)
  (w : world) : outcome (Z * world) :=
  buffer_alloc idle (p_memory p_obj) (capacity p_obj)
    1 (Z.to_nat (capacity p_obj)) w.

Definition nrf_802154_buffer_allocator_free (p_obj : nrf_802154_buffer_allocator_t)
  (p : Z) (w : world) : outcome world :=
  buffer_free p (p_memory p_obj) (capacity p_obj) w.

(** ** Vocabulary of the specification *)

(** The occupancy flag of slot [i], if the memory has such a slot. *)
Definition flag (w : world) (i : Z) : option bool :=
  taken <$> heap w !! Z.to_nat i.

(** The array after [p_buffer_pool[i].taken = v]. *)
Definition set_flag (i : Z) (v : bool) (h : list nrf_802154_buffer_t)
  : list nrf_802154_buffer_t :=
  match h !! Z.to_nat i with
  | Some b => <[Z.to_nat i := set_taken v b]> h
  | None => h
  end.

(** The machine after a critical section that left the array as [h]. *)
Definition after_critical_section (h : list nrf_802154_buffer_t) (w : world) : world :=
  World h (PRIMASK w) (if THREAD_SAFE then PRIMASK w else m_critical_section w).

(** The address of the payload of slot [i]: [p_buffer_pool[i].data]. *)
Definition payload (base : Z) (i : Z) : Z := base + i * slot_size + data_offset.

(** A pool that [nrf_802154_buffer_allocator_init] has accepted: the
    capacity is a [size_t], the memory holds that many slots and lies in the
    address space, and it is not null unless the pool is empty. *)
Definition pool_ok (p_obj : nrf_802154_buffer_allocator_t) (w : world) : Prop :=
  0 <= capacity p_obj < UINT32_MOD /\
  capacity p_obj <= Z.of_nat (length (heap w)) /\
  0 <= p_memory p_obj /\
  p_memory p_obj + capacity p_obj * slot_size <= UINT32_MOD /\
  (capacity p_obj = 0 \/ p_memory p_obj <> NULL).

(** Slot [i] is the free slot of lowest index. *)
Definition first_free (p_obj : nrf_802154_buffer_allocator_t) (w : world) (i : Z) : Prop :=
  0 <= i < capacity p_obj /\
  flag w i = Some false /\
  forall j, 0 <= j < i -> flag w j = Some true.

(** No slot of the pool is free. *)
Definition exhausted (p_obj : nrf_802154_buffer_allocator_t) (w : world) : Prop :=
  forall j, 0 <= j < capacity p_obj -> flag w j = Some true.

(** The array after the flags of its first [n] slots have been cleared. *)
Definition clear_flags (n : nat) (h : list nrf_802154_buffer_t)
  : list nrf_802154_buffer_t :=
  (set_taken false <$> take n h) ++ drop n h.

(** What the caller of [nrf_802154_buffer_allocator_init] owes: [memsize]
    is a [size_t], the region lies in the address space, and the memory
    really holds the slots that fit into [memsize] bytes. *)
Definition valid_region (mem memsize : Z) (w : world) : Prop :=
  0 <= mem /\ 0 <= memsize /\ mem + memsize <= UINT32_MOD /\
  memsize < UINT32_MOD /\
  memsize / slot_size <= Z.of_nat (length (heap w)).

(** [n] calls of [allocate] in a row, with the pointers they returned. *)
Fixpoint alloc_n (n : nat) (p_obj : nrf_802154_buffer_allocator_t) (w : world)
  : outcome (list Z * world) :=
  match n with
  | O => Ret ([], w)
  | S n' =>
    let* '(p, w) := nrf_802154_buffer_allocator_alloc p_obj w in
    let* '(ps, w) := alloc_n n' p_obj w in
    Ret (p :: ps, w)
  end.

(** The scenario of the specification: allocate A, B, C and D, release B,
    allocate E, release A, C and E, allocate three more times.  The result
    lists the eight pointers in the order they were returned. *)
Definition scenario (p_obj : nrf_802154_buffer_allocator_t) (w : world)
  : outcome (list Z * world) :=
  let* '(A, w) := nrf_802154_buffer_allocator_alloc p_obj w in
  let* '(B, w) := nrf_802154_buffer_allocator_alloc p_obj w in
  let* '(C, w) := nrf_802154_buffer_allocator_alloc p_obj w in
  let* '(D, w) := nrf_802154_buffer_allocator_alloc p_obj w in
  let* w := nrf_802154_buffer_allocator_free p_obj B w in
  let* '(E, w) := nrf_802154_buffer_allocator_alloc p_obj w in
  let* w := nrf_802154_buffer_allocator_free p_obj A w in
  let* w := nrf_802154_buffer_allocator_free p_obj C w in
  let* w := nrf_802154_buffer_allocator_free p_obj E w in
  let* '(F, w) := nrf_802154_buffer_allocator_alloc p_obj w in
  let* '(G, w) := nrf_802154_buffer_allocator_alloc p_obj w in
  let* '(H, w) := nrf_802154_buffer_allocator_alloc p_obj w in
  Ret ([A; B; C; D; E; F; G; H], w).

(** The occupancy flags of the pool, read off as a list. *)
Definition flags_of (p_obj : nrf_802154_buffer_allocator_t) (w : world)
  (fs : list bool) : Prop :=
  Z.of_nat (length fs) = capacity p_obj /\
  forall j : nat, (j < length fs)%nat -> flag w (Z.of_nat j) = fs !! j.

(** An environment that acts once, in the window of round [k]. *)
Definition at_window (k : nat) (f : world -> world) : environment :=
  fun s w =>
    match s with
    | Window r => if (r =? k)%nat then f w else w
    | _ => w
    end.

(** What an interrupt handler that calls [allocate] and runs to its end
    does to the machine it interrupted. *)
Definition isr_alloc (p_obj : nrf_802154_buffer_allocator_t) (w : world) : world :=
  match nrf_802154_buffer_allocator_alloc p_obj w with
  | Ret (_, w') => w'
  | _ => w
  end.

(** What an interrupt handler that calls [release] on [p] and runs to its
    end does to the machine it interrupted. *)
Definition isr_free (p_obj : nrf_802154_buffer_allocator_t) (p : Z) (w : world) : world :=
  match nrf_802154_buffer_allocator_free p_obj p w with
  | Ret w' => w'
  | _ => w
  end.

(** A handler that holds slot 0 on and off: it releases slot 0 before every
    check of the interrupted call and allocates in every window. *)
Definition contender (p_obj : nrf_802154_buffer_allocator_t) : environment :=
  fun s w =>
    match s with
    | BeforeCheck _ _ => isr_free p_obj (payload (p_memory p_obj) 0) w
    | Window _ => isr_alloc p_obj w
    | Locked _ => w
    end.

(** An environment that returns with the interrupt mask as it found it, as
    an interrupt handler does. *)
Definition keeps_mask (env : environment) : Prop :=
  forall s w, PRIMASK (env s w) = PRIMASK w.

(** The number of slots of the array whose flag is set. *)
Definition taken_count (h : list nrf_802154_buffer_t) : nat :=
  length (filter (fun b => taken b = true) h).

(** ** Basic facts *)

Hypothesis slot_size_pos : 0 < slot_size.
Hypothesis data_offset_range : 0 <= data_offset < slot_size.

Lemma bind_ret {A B : Type} (a : A) (k : A -> outcome B) : bind (Ret a) k = k a.
Proof. reflexivity. Qed.

Lemma preempt_idle (s : site) (w : world) : preempt idle s w = w.
Proof. unfold preempt, idle. by destruct (PRIMASK w). Qed.

Lemma preempt_masked (env : environment) (s : site) (w : world) :
  PRIMASK w = true -> preempt env s w = w.
Proof. unfold preempt. by intros ->. Qed.

Lemma wrap32_small (z : Z) : 0 <= z < UINT32_MOD -> wrap32 z = z.
Proof. intros H. unfold wrap32. by apply Z.mod_small. Qed.

Lemma load_taken_flag (w : world) (i : Z) (v : bool) :
  flag w i = Some v -> load_taken i w = Ret v.
Proof.
  unfold flag, load_taken. destruct (heap w !! Z.to_nat i); simpl; congruence.
Qed.

Lemma load_taken_ret (w : world) (i : Z) (v : bool) :
  load_taken i w = Ret v -> flag w i = Some v.
Proof.
  unfold flag, load_taken. destruct (heap w !! Z.to_nat i); simpl; congruence.
Qed.

Lemma store_taken_flag (w : world) (i : Z) (v v' : bool) :
  flag w i = Some v' ->
  store_taken i v w = Ret (set_heap (set_flag i v (heap w)) w).
Proof.
  unfold flag, store_taken, set_flag.
  destruct (heap w !! Z.to_nat i); simpl; congruence.
Qed.

Lemma length_set_flag (i : Z) (v : bool) (h : list nrf_802154_buffer_t) :
  length (set_flag i v h) = length h.
Proof.
  unfold set_flag. destruct (h !! Z.to_nat i); [apply length_insert | done].
Qed.

Lemma lookup_set_flag_eq (i : Z) (v : bool) (h : list nrf_802154_buffer_t)
  (b : nrf_802154_buffer_t) :
  h !! Z.to_nat i = Some b -> set_flag i v h !! Z.to_nat i = Some (set_taken v b).
Proof.
  intros H. unfold set_flag. rewrite H.
  apply list_lookup_insert_eq. by eapply lookup_lt_Some.
Qed.

Lemma lookup_set_flag_ne (i j : Z) (v : bool) (h : list nrf_802154_buffer_t) :
  0 <= i -> 0 <= j -> i <> j -> set_flag i v h !! Z.to_nat j = h !! Z.to_nat j.
Proof.
  intros Hi Hj Hne. unfold set_flag. destruct (h !! Z.to_nat i); [|done].
  apply list_lookup_insert_ne. lia.
Qed.

Lemma flag_set_flag_eq (w : world) (i : Z) (v v' : bool) :
  flag w i = Some v' -> flag (set_heap (set_flag i v (heap w)) w) i = Some v.
Proof.
  unfold flag. simpl. destruct (heap w !! Z.to_nat i) as [b|] eqn:E; [|done].
  intros _. by rewrite (lookup_set_flag_eq _ _ _ _ E).
Qed.

Lemma flag_set_flag_ne (w w' : world) (i j : Z) (v : bool) :
  0 <= i -> 0 <= j -> i <> j ->
  heap w' = set_flag i v (heap w) -> flag w' j = flag w j.
Proof.
  intros Hi Hj Hne E. unfold flag. rewrite E. by rewrite lookup_set_flag_ne.
Qed.

Lemma flag_heap_set_flag_eq (w w' : world) (i : Z) (v v' : bool) :
  heap w' = set_flag i v (heap w) -> flag w i = Some v' -> flag w' i = Some v.
Proof.
  intros E H. rewrite <- (flag_set_flag_eq w i v v' H).
  unfold flag. by rewrite E.
Qed.

Lemma flag_is_Some (w : world) (i : Z) :
  0 <= i < Z.of_nat (length (heap w)) -> is_Some (flag w i).
Proof.
  intros H. unfold flag.
  destruct (lookup_lt_is_Some_2 (heap w) (Z.to_nat i)) as [b ->]; [lia|].
  by eexists.
Qed.

Lemma critical_section_round_trip (h : list nrf_802154_buffer_t) (w : world) :
  critical_section_exit (set_heap h (critical_section_enter w))
  = after_critical_section h w.
Proof.
  unfold critical_section_exit, critical_section_enter, after_critical_section, set_heap.
  by destruct THREAD_SAFE, w.
Qed.

Lemma flag_critical_section_enter (w : world) (i : Z) :
  flag (critical_section_enter w) i = flag w i.
Proof. unfold critical_section_enter. by destruct THREAD_SAFE. Qed.

Lemma heap_critical_section_enter (w : world) :
  heap (critical_section_enter w) = heap w.
Proof. unfold critical_section_enter. by destruct THREAD_SAFE. Qed.

(** ** The scan when nothing pre-empts *)

Section Scan.

Variable base : Z.
Variable len : Z.
Hypothesis len_size_t : len < UINT32_MOD.

(** The scan passes over taken slots and claims the first free one. *)
Lemma for_loop_idle_found (c : Z) (n : nat) :
  forall (i : Z) (fuel round : nat) (l : locals) (w : world),
    c = i + Z.of_nat n -> 0 <= i -> c < len ->
    (forall j, i <= j < c -> flag w j = Some true) ->
    flag w c = Some false ->
    (n < fuel)%nat ->
    for_loop idle base len fuel round i l w
    = Ret (set_success true (set_p_buffer (base + c * slot_size) l),
           after_critical_section (set_flag c true (heap w)) w).
Proof.
  induction n as [|n IH]; intros i fuel round l w Hc Hi Hlen Hpre Hfree Hfuel;
    (destruct fuel as [|fuel]; [lia|]); cbn [for_loop];
    (replace (i <? len) with true by (symmetry; apply Z.ltb_lt; lia));
    rewrite preempt_idle.
  - assert (i = c) as -> by lia.
    rewrite (load_taken_flag _ _ _ Hfree), bind_ret. cbn [negb].
    rewrite preempt_idle.
    rewrite (load_taken_flag (critical_section_enter w) c false)
      by (by rewrite flag_critical_section_enter).
    rewrite bind_ret, preempt_idle.
    rewrite (store_taken_flag (critical_section_enter w) c true false)
      by (by rewrite flag_critical_section_enter).
    rewrite bind_ret, heap_critical_section_enter, critical_section_round_trip.
    reflexivity.
  - rewrite (load_taken_flag w i true) by (apply Hpre; lia).
    rewrite bind_ret. cbn [negb].
    rewrite wrap32_small by lia.
    rewrite (IH (i + 1) fuel round _ w); [reflexivity|lia|lia|lia| |done|lia].
    intros j Hj. apply Hpre. lia.
Qed.

(** When every remaining slot is taken the scan runs off the end and
    leaves the machine alone. *)
Lemma for_loop_idle_exhausted (n : nat) :
  forall (i : Z) (fuel round : nat) (l : locals) (w : world),
    len = i + Z.of_nat n -> 0 <= i ->
    (forall j, i <= j < len -> flag w j = Some true) ->
    (n <= fuel)%nat ->
    for_loop idle base len fuel round i l w
    = Ret (match n with
           | O => l
           | S _ => set_p_buffer (base + (len - 1) * slot_size) l
           end, w).
Proof.
  induction n as [|n IH]; intros i fuel round l w Hlen Hi Htaken Hfuel.
  - destruct fuel; cbn [for_loop];
      by (replace (i <? len) with false by (symmetry; apply Z.ltb_ge; lia)).
  - destruct fuel as [|fuel]; [lia|]. cbn [for_loop].
    replace (i <? len) with true by (symmetry; apply Z.ltb_lt; lia).
    rewrite preempt_idle.
    rewrite (load_taken_flag w i true) by (apply Htaken; lia).
    rewrite bind_ret. cbn [negb].
    rewrite wrap32_small by lia.
    rewrite (IH (i + 1) fuel round _ w); [|lia|lia| |lia].
    + destruct n; [|reflexivity].
      do 3 f_equal. lia.
    + intros j Hj. apply Htaken. lia.
Qed.

End Scan.

(** A pool with a slot for every index below its capacity either has a
    lowest free slot or is exhausted. *)
Lemma first_free_or_exhausted (p_obj : nrf_802154_buffer_allocator_t) (w : world) :
  capacity p_obj <= Z.of_nat (length (heap w)) ->
  (exists c, first_free p_obj w c) \/ exhausted p_obj w.
Proof.
  intros Hlen.
  assert (forall n : nat, Z.of_nat n <= capacity p_obj ->
            (exists c, first_free p_obj w c) \/
            (forall j, 0 <= j < Z.of_nat n -> flag w j = Some true)) as H.
  { induction n as [|n IH]; intros Hn; [right; intros; lia|].
    destruct IH as [?|IH]; [lia|by left|].
    destruct (flag_is_Some w (Z.of_nat n)) as [[|] Hf]; [lia| |].
    - right. intros j Hj.
      destruct (decide (j = Z.of_nat n)) as [->|]; [done|apply IH; lia].
    - left. exists (Z.of_nat n). repeat split; [lia|lia|done|done]. }
  destruct (Z_le_gt_dec 0 (capacity p_obj)) as [Hc|Hc].
  - destruct (H (Z.to_nat (capacity p_obj))) as [?|Hall]; [lia|by left|].
    right. intros j Hj. apply Hall. lia.
  - right. intros j Hj. lia.
Qed.

Lemma first_free_unique (p_obj : nrf_802154_buffer_allocator_t) (w : world) (c c' : Z) :
  first_free p_obj w c -> first_free p_obj w c' -> c = c'.
Proof.
  intros (Hc & Hf & Hlow) (Hc' & Hf' & Hlow').
  destruct (Z.lt_trichotomy c c') as [H|[H|H]]; [|done|].
  - specialize (Hlow' c). rewrite Hlow' in Hf by lia. done.
  - specialize (Hlow c'). rewrite Hlow in Hf' by lia. done.
Qed.

Lemma first_free_not_exhausted (p_obj : nrf_802154_buffer_allocator_t) (w : world) (c : Z) :
  first_free p_obj w c -> exhausted p_obj w -> False.
Proof.
  intros (Hc & Hf & _) Hall. rewrite (Hall c Hc) in Hf. done.
Qed.

(** ** Sequential [allocate] *)

Lemma buffer_alloc_idle_claims (base cap : Z) (rounds steps : nat) (w : world) (c : Z) :
  pool_ok (Allocator base cap) w -> first_free (Allocator base cap) w c ->
  (1 <= rounds)%nat -> (Z.to_nat cap <= steps)%nat ->
  buffer_alloc_loops idle base cap rounds steps w
  = Ret (Locals (base + c * slot_size) true false,
         after_critical_section (set_flag c true (heap w)) w) /\
  buffer_alloc idle base cap rounds steps w
  = Ret (payload base c, after_critical_section (set_flag c true (heap w)) w).
Proof.
  intros (Hcap & Hlen & Hbase & Hfit & Hnull) (Hc & Hf & Hlow) Hrounds Hsteps.
  cbn [capacity p_memory] in *.
  assert (buffer_alloc_loops idle base cap rounds steps w
          = Ret (Locals (base + c * slot_size) true false,
                 after_critical_section (set_flag c true (heap w)) w)) as Hloops.
  { unfold buffer_alloc_loops.
    destruct rounds as [|rounds]; [lia|]. cbn [do_while].
    rewrite (for_loop_idle_found base cap ltac:(lia) c (Z.to_nat c));
      [done|lia|lia|lia|intros; apply Hlow; lia|done|lia]. }
  split; [done|].
  unfold buffer_alloc. rewrite Hloops, bind_ret.
  unfold return_value. cbn [success p_buffer].
  replace (base + c * slot_size =? NULL) with false; [done|].
  symmetry. apply Z.eqb_neq. unfold NULL in *. nia.
Qed.

Lemma buffer_alloc_idle_exhausted (base cap : Z) (rounds steps : nat) (w : world) :
  0 <= cap < UINT32_MOD -> exhausted (Allocator base cap) w ->
  (1 <= rounds)%nat -> (Z.to_nat cap <= steps)%nat ->
  buffer_alloc_loops idle base cap rounds steps w
  = Ret (Locals (if decide (cap = 0) then NULL else base + (cap - 1) * slot_size)
           false false, w) /\
  buffer_alloc idle base cap rounds steps w = Ret (NULL, w).
Proof.
  intros Hcap Hall Hrounds Hsteps. unfold exhausted in Hall. cbn [capacity] in *.
  assert (buffer_alloc_loops idle base cap rounds steps w
          = Ret (Locals (if decide (cap = 0) then NULL else base + (cap - 1) * slot_size)
                   false false, w)) as Hloops.
  { unfold buffer_alloc_loops.
    destruct rounds as [|rounds]; [lia|]. cbn [do_while].
    rewrite (for_loop_idle_exhausted base cap ltac:(lia) (Z.to_nat cap));
      [|lia|lia|intros; apply Hall; lia|lia].
    rewrite bind_ret.
    destruct (Z.to_nat cap) eqn:E; case_decide; try lia; done. }
  split; [done|].
  unfold buffer_alloc. by rewrite Hloops.
Qed.

Lemma alloc_claims (p_obj : nrf_802154_buffer_allocator_t) (w : world) (c : Z) :
  pool_ok p_obj w -> first_free p_obj w c ->
  nrf_802154_buffer_allocator_alloc p_obj w
  = Ret (payload (p_memory p_obj) c,
         after_critical_section (set_flag c true (heap w)) w).
Proof.
  destruct p_obj as [base cap]. intros Hok Hff.
  apply (buffer_alloc_idle_claims base cap 1 _ w c Hok Hff); cbn [capacity]; lia.
Qed.

Lemma alloc_exhausted (p_obj : nrf_802154_buffer_allocator_t) (w : world) :
  0 <= capacity p_obj < UINT32_MOD -> exhausted p_obj w ->
  nrf_802154_buffer_allocator_alloc p_obj w = Ret (NULL, w).
Proof.
  destruct p_obj as [base cap]. intros Hcap Hall.
  apply (buffer_alloc_idle_exhausted base cap 1 _ w Hcap Hall); cbn [capacity]; lia.
Qed.

Lemma payload_not_null (p_obj : nrf_802154_buffer_allocator_t) (w : world) (c : Z) :
  pool_ok p_obj w -> 0 <= c < capacity p_obj ->
  payload (p_memory p_obj) c <> NULL.
Proof.
  intros (Hcap & Hlen & Hbase & Hfit & Hnull) Hc.
  unfold payload, NULL in *. nia.
Qed.

(** C4: [allocate] returns, and it returns null exactly when no slot of
    the pool is free, which is always so for an empty pool; a call that
    returns null leaves the machine as it found it. *)
Theorem alloc_null_iff_exhausted (p_obj : nrf_802154_buffer_allocator_t) (w : world) :
  pool_ok p_obj w ->
  exists r w',
    nrf_802154_buffer_allocator_alloc p_obj w = Ret (r, w') /\
    (r = NULL <-> exhausted p_obj w) /\
    (r = NULL -> w' = w) /\
    (capacity p_obj = 0 -> r = NULL).
Proof.
  intros Hok.
  destruct (first_free_or_exhausted p_obj w) as [[c Hc]|Hall];
    [apply Hok| |].
  - pose proof (payload_not_null p_obj w c Hok (proj1 Hc)) as Hnn.
    eexists _, _. split; [by apply alloc_claims|].
    repeat split.
    + intros Hr. by destruct Hnn.
    + intros Hall. by destruct (first_free_not_exhausted p_obj w c).
    + intros Hr. by destruct Hnn.
    + intros H0. destruct Hc as (Hc & _). lia.
  - exists NULL, w. split; [apply alloc_exhausted; [apply Hok|done]|].
    by repeat split.
Qed.

(** C10: when no slot is free, and so also for an empty pool, the loops
    end with [success] false, the conditional of the [return] statement
    yields null without evaluating [p_buffer->data], and no fault occurs,
    even though [p_buffer] is still null for an empty pool. *)
Theorem alloc_failure_path_is_safe (base cap : Z) (w : world) :
  0 <= cap < UINT32_MOD -> exhausted (Allocator base cap) w ->
  exists l,
    buffer_alloc_loops idle base cap 1 (Z.to_nat cap) w = Ret (l, w) /\
    success l = false /\
    (cap = 0 -> p_buffer l = NULL) /\
    return_value l = Ret NULL /\
    nrf_802154_buffer_allocator_alloc (Allocator base cap) w = Ret (NULL, w).
Proof.
  intros Hcap Hall.
  destruct (buffer_alloc_idle_exhausted base cap 1 (Z.to_nat cap) w Hcap Hall)
    as [Hloops Halloc]; [lia|lia|].
  eexists. split; [exact Hloops|].
  repeat split; [|exact Halloc].
  cbn [p_buffer]. intros ->. done.
Qed.

(** ** [initialize] *)

Lemma clear_flags_step (i : nat) (h : list nrf_802154_buffer_t) (b : nrf_802154_buffer_t) :
  h !! i = Some b ->
  <[i := set_taken false b]> (clear_flags i h) = clear_flags (S i) h.
Proof.
  revert h. unfold clear_flags.
  induction i as [|i IH]; intros [|a h] Hb; simplify_eq/=; [done|].
  f_equal. by apply IH.
Qed.

Lemma lookup_clear_flags (n i : nat) (h : list nrf_802154_buffer_t) :
  clear_flags n h !! i
  = (if decide (i < n)%nat then set_taken false <$> h !! i else h !! i).
Proof.
  unfold clear_flags. case_decide as Hi.
  - destruct (decide (i < length h)%nat) as [Hl|Hl].
    + rewrite lookup_app_l by (rewrite length_fmap, length_take; lia).
      by rewrite list_lookup_fmap, lookup_take_lt.
    + rewrite !lookup_ge_None_2; [done|lia|].
      rewrite length_app, length_fmap, length_take, length_drop. lia.
  - destruct (decide (n <= length h)%nat) as [Hl|Hl].
    + rewrite lookup_app_r by (rewrite length_fmap, length_take; lia).
      rewrite length_fmap, length_take, lookup_drop. f_equal. lia.
    + rewrite !lookup_ge_None_2; [done|lia|].
      rewrite length_app, length_fmap, length_take, length_drop. lia.
Qed.

Lemma length_clear_flags (n : nat) (h : list nrf_802154_buffer_t) :
  length (clear_flags n h) = length h.
Proof.
  unfold clear_flags. rewrite length_app, length_fmap, length_take, length_drop. lia.
Qed.

(** The loop of [initialize]: with the first [i] flags cleared already, it
    clears the flags up to [cap]. *)
Lemma init_loop_clears (cap : Z) (h0 : list nrf_802154_buffer_t) (n : nat) :
  forall (i : Z) (fuel : nat) (w : world),
    cap = i + Z.of_nat n -> 0 <= i -> cap < UINT32_MOD ->
    cap <= Z.of_nat (length h0) ->
    heap w = clear_flags (Z.to_nat i) h0 ->
    (n <= fuel)%nat ->
    init_loop fuel i cap w = Ret (set_heap (clear_flags (Z.to_nat cap) h0) w).
Proof.
  induction n as [|n IH]; intros i fuel w Hcap Hi Hmax Hlen Hw Hfuel.
  - assert (cap = i) as -> by lia.
    destruct fuel; cbn [init_loop]; rewrite Z.ltb_irrefl;
      (rewrite <- Hw; by destruct w).
  - destruct fuel as [|fuel]; [lia|]. cbn [init_loop].
    replace (i <? cap) with true by (symmetry; apply Z.ltb_lt; lia).
    destruct (lookup_lt_is_Some_2 h0 (Z.to_nat i)) as [b Hb]; [lia|].
    unfold store_taken. rewrite Hw at 1.
    rewrite lookup_clear_flags. rewrite decide_False by lia.
    rewrite Hb, bind_ret.
    rewrite wrap32_small by lia.
    rewrite (IH (i + 1) fuel); [done|lia|lia|lia|lia| |lia].
    cbn [heap set_heap]. rewrite Hw, (clear_flags_step _ _ _ Hb).
    f_equal. lia.
Qed.

Lemma capacity_bounds (memsize : Z) :
  0 <= memsize ->
  0 <= memsize / slot_size /\
  memsize / slot_size * slot_size <= memsize < (memsize / slot_size + 1) * slot_size.
Proof.
  intros Hsize.
  pose proof (Z.div_mod memsize slot_size ltac:(lia)) as Hdm.
  pose proof (Z.mod_pos_bound memsize slot_size slot_size_pos) as Hm.
  split; [apply Z.div_pos; lia|nia].
Qed.

(** The assertion of line 142 holds exactly when the pool is empty or the
    memory is not null. *)
Lemma init_assertion (cap mem : Z) :
  (cap =? 0) || negb (cap =? 0) && negb (mem =? NULL) = true
  <-> cap = 0 \/ mem <> NULL.
Proof.
  clear slot_size_pos data_offset_range.
  destruct (Z.eqb_spec cap 0), (Z.eqb_spec mem NULL); cbn; intuition congruence.
Qed.

Lemma init_returns (mem memsize : Z) (w : world) :
  valid_region mem memsize w ->
  memsize / slot_size = 0 \/ mem <> NULL ->
  nrf_802154_buffer_allocator_init mem memsize w
  = Ret (Allocator mem (memsize / slot_size),
         set_heap (clear_flags (Z.to_nat (memsize / slot_size)) (heap w)) w).
Proof.
  intros (Hmem & Hsize & Hfit & Hmax & Hlen) Hassert.
  destruct (capacity_bounds memsize Hsize) as [Hcap0 Hdiv].
  unfold nrf_802154_buffer_allocator_init.
  apply init_assertion in Hassert. rewrite Hassert. cbn [capacity].
  rewrite (init_loop_clears _ (heap w) (Z.to_nat (memsize / slot_size)) 0 _ w);
    [done|lia|lia|nia|lia|done|lia].
Qed.

(** What a pool looks like when [initialize] has returned. *)
Lemma init_fresh (mem memsize : Z) (w0 w : world) (p_obj : nrf_802154_buffer_allocator_t) :
  valid_region mem memsize w0 ->
  nrf_802154_buffer_allocator_init mem memsize w0 = Ret (p_obj, w) ->
  p_obj = Allocator mem (memsize / slot_size) /\
  pool_ok p_obj w /\
  forall j, 0 <= j < capacity p_obj -> flag w j = Some false.
Proof.
  intros Hvalid Hinit.
  assert (memsize / slot_size = 0 \/ mem <> NULL) as Hassert.
  { apply init_assertion. unfold nrf_802154_buffer_allocator_init in Hinit.
    by destruct ((memsize / slot_size =? 0)
                 || negb (memsize / slot_size =? 0) && negb (mem =? NULL)). }
  rewrite (init_returns _ _ _ Hvalid Hassert) in Hinit.
  injection Hinit as <- <-.
  destruct Hvalid as (Hmem & Hsize & Hfit & Hmax & Hlen).
  destruct (capacity_bounds memsize Hsize) as [Hcap0 Hdiv].
  split; [done|]. split.
  - unfold pool_ok. cbn [capacity p_memory heap set_heap].
    rewrite length_clear_flags. repeat split; try lia; nia.
  - cbn [capacity]. intros j Hj. unfold flag. cbn [heap set_heap].
    rewrite lookup_clear_flags, decide_True by lia.
    destruct (lookup_lt_is_Some_2 (heap w0) (Z.to_nat j)) as [b ->]; [lia|done].
Qed.

(** C2: for every region the caller may pass, [initialize] computes the
    capacity by truncating division, clears the flag of each of the
    [capacity] slots, records base and capacity, and changes nothing else:
    payloads, slots beyond the capacity, the interrupt mask and
    [m_critical_section] are as before. *)
Theorem init_clears_every_flag (mem memsize : Z) (w : world) :
  valid_region mem memsize w ->
  memsize / slot_size = 0 \/ mem <> NULL ->
  let cap := memsize / slot_size in
  cap = memsize ÷ slot_size /\
  cap * slot_size <= memsize < (cap + 1) * slot_size /\
  nrf_802154_buffer_allocator_init mem memsize w
  = Ret (Allocator mem cap,
         World (clear_flags (Z.to_nat cap) (heap w)) (PRIMASK w) (m_critical_section w)) /\
  forall (i : nat) (b : nrf_802154_buffer_t),
    heap w !! i = Some b ->
    clear_flags (Z.to_nat cap) (heap w) !! i
    = Some (if decide (Z.of_nat i < cap) then Buffer (data b) false else b).
Proof.
  intros Hvalid Hassert cap.
  pose proof Hvalid as (Hmem & Hsize & Hfit & Hmax & Hlen).
  destruct (capacity_bounds memsize Hsize) as [Hcap0 Hdiv]. fold cap in Hcap0, Hdiv.
  split; [|split; [done|split]].
  - subst cap. rewrite Z.quot_div_nonneg; lia.
  - by apply init_returns.
  - intros i b Hb. rewrite lookup_clear_flags, Hb.
    repeat case_decide; try lia; done.
Qed.

(** ** [release] *)

Lemma flag_after_critical_section (h : list nrf_802154_buffer_t) (w : world) (j : Z) :
  flag (after_critical_section h w) j = taken <$> h !! Z.to_nat j.
Proof. reflexivity. Qed.

Lemma flag_claimed_eq (w : world) (i : Z) (v v' : bool) :
  flag w i = Some v' ->
  flag (after_critical_section (set_flag i v (heap w)) w) i = Some v.
Proof. intros H. by apply (flag_set_flag_eq w i v v'). Qed.

Lemma flag_claimed_ne (w : world) (i j : Z) (v : bool) :
  0 <= i -> 0 <= j -> i <> j ->
  flag (after_critical_section (set_flag i v (heap w)) w) j = flag w j.
Proof. intros Hi Hj Hne. by apply (flag_set_flag_ne w _ i j v). Qed.

(** The index that [buffer_free] recovers from the payload address of
    slot [c] is [c]. *)
Lemma index_of_payload (base cap c : Z) :
  0 <= base -> base + cap * slot_size <= UINT32_MOD -> 0 <= c < cap ->
  wrap32 (payload base c - base) / slot_size = c.
Proof.
  intros Hbase Hfit Hc. unfold payload.
  replace (base + c * slot_size + data_offset - base)
    with (c * slot_size + data_offset) by lia.
  rewrite wrap32_small by nia.
  rewrite Z.div_add_l, Z.div_small by lia. lia.
Qed.

Lemma free_slot (p_obj : nrf_802154_buffer_allocator_t) (w : world) (c : Z) :
  pool_ok p_obj w -> 0 <= c < capacity p_obj ->
  nrf_802154_buffer_allocator_free p_obj (payload (p_memory p_obj) c) w
  = Ret (after_critical_section (set_flag c false (heap w)) w).
Proof.
  intros (Hcap & Hlen & Hbase & Hfit & Hnull) Hc.
  unfold nrf_802154_buffer_allocator_free, buffer_free.
  rewrite (index_of_payload _ (capacity p_obj)) by lia.
  replace (c <? capacity p_obj) with true by (symmetry; apply Z.ltb_lt; lia).
  destruct (flag_is_Some w c) as [v Hv]; [lia|].
  rewrite (store_taken_flag (critical_section_enter w) c false v)
    by (by rewrite flag_critical_section_enter).
  by rewrite bind_ret, heap_critical_section_enter, critical_section_round_trip.
Qed.

(** C5: releasing the handle of an occupied slot [c] recovers the index
    [c] from the address, returns without failing, clears the flag of
    slot [c] and leaves the flag of every other slot as it was. *)
Theorem release_clears_exactly_one_flag
  (p_obj : nrf_802154_buffer_allocator_t) (w : world) (c : Z) :
  pool_ok p_obj w -> 0 <= c < capacity p_obj -> flag w c = Some true ->
  let handle := payload (p_memory p_obj) c in
  wrap32 (handle - p_memory p_obj) / slot_size = c /\
  exists w',
    nrf_802154_buffer_allocator_free p_obj handle w = Ret w' /\
    heap w' = set_flag c false (heap w) /\
    PRIMASK w' = PRIMASK w /\
    flag w' c = Some false /\
    forall j, 0 <= j -> j <> c -> flag w' j = flag w j.
Proof.
  intros Hok Hc Hocc handle. split.
  - destruct Hok as (Hcap & Hlen & Hbase & Hfit & Hnull).
    apply (index_of_payload _ (capacity p_obj)); lia.
  - eexists. split; [by apply free_slot|].
    repeat split.
    + by apply (flag_claimed_eq w c false true).
    + intros j Hj Hne. apply flag_claimed_ne; lia.
Qed.

(** ** Sequences of calls *)

Lemma pool_ok_after (p_obj : nrf_802154_buffer_allocator_t) (w : world) (c : Z) (v : bool) :
  pool_ok p_obj w ->
  pool_ok p_obj (after_critical_section (set_flag c v (heap w)) w).
Proof.
  intros (Hcap & Hlen & Hrest). split; [done|]. split; [|done].
  cbn [heap after_critical_section]. by rewrite length_set_flag.
Qed.

Lemma flags_of_update (p_obj : nrf_802154_buffer_allocator_t) (w : world)
  (fs : list bool) (i : nat) (v : bool) :
  flags_of p_obj w fs -> (i < length fs)%nat ->
  flags_of p_obj
    (after_critical_section (set_flag (Z.of_nat i) v (heap w)) w) (<[i := v]> fs).
Proof.
  intros [Hlen Hfs] Hi. split; [by rewrite length_insert|].
  intros j Hj. rewrite length_insert in Hj.
  destruct (decide (j = i)) as [->|Hne].
  - rewrite list_lookup_insert_eq by done.
    destruct (lookup_lt_is_Some_2 fs i Hi) as [x Hx].
    apply (flag_claimed_eq w _ v x). by rewrite Hfs, Hx.
  - rewrite list_lookup_insert_ne by done.
    rewrite flag_claimed_ne by lia. by apply Hfs.
Qed.

(** [allocate] on the flags: the first [false] becomes [true]. *)
Lemma alloc_flags_claim (p_obj : nrf_802154_buffer_allocator_t) (w : world)
  (fs : list bool) (i : nat) (x : bool) :
  pool_ok p_obj w -> flags_of p_obj w fs ->
  list_find (fun b : bool => b = false) fs = Some (i, x) ->
  exists w',
    nrf_802154_buffer_allocator_alloc p_obj w
    = Ret (payload (p_memory p_obj) (Z.of_nat i), w') /\
    pool_ok p_obj w' /\ flags_of p_obj w' (<[i := true]> fs).
Proof.
  intros Hok Hfs Hfind.
  apply list_find_Some in Hfind as (Hi & -> & Hlow).
  pose proof (lookup_lt_Some _ _ _ Hi) as Hlt.
  eexists. split; [|split; [by apply pool_ok_after|by apply flags_of_update]].
  apply alloc_claims; [done|].
  destruct Hfs as [Hlen Hfs]. repeat split; [lia|lia|by rewrite Hfs|].
  intros j Hj.
  replace j with (Z.of_nat (Z.to_nat j)) by lia.
  rewrite Hfs by lia.
  destruct (lookup_lt_is_Some_2 fs (Z.to_nat j)) as [[|] Hy]; [lia|done|].
  destruct (Hlow (Z.to_nat j) false Hy); [lia|done].
Qed.

Lemma alloc_flags_exhausted (p_obj : nrf_802154_buffer_allocator_t) (w : world)
  (fs : list bool) :
  pool_ok p_obj w -> flags_of p_obj w fs ->
  list_find (fun b : bool => b = false) fs = None ->
  nrf_802154_buffer_allocator_alloc p_obj w = Ret (NULL, w).
Proof.
  intros Hok [Hlen Hfs] Hfind.
  apply alloc_exhausted; [apply Hok|].
  intros j Hj.
  replace j with (Z.of_nat (Z.to_nat j)) by lia.
  rewrite Hfs by lia.
  destruct (lookup_lt_is_Some_2 fs (Z.to_nat j)) as [[|] Hy]; [lia|done|].
  apply list_find_None in Hfind.
  rewrite Forall_forall in Hfind.
  destruct (Hfind false); [|done]. by eapply list_elem_of_lookup_2.
Qed.

(** [release] on the flags: entry [i] becomes [false]. *)
Lemma free_flags (p_obj : nrf_802154_buffer_allocator_t) (w : world)
  (fs : list bool) (i : nat) :
  pool_ok p_obj w -> flags_of p_obj w fs -> (i < length fs)%nat ->
  exists w',
    nrf_802154_buffer_allocator_free p_obj (payload (p_memory p_obj) (Z.of_nat i)) w
    = Ret w' /\
    pool_ok p_obj w' /\ flags_of p_obj w' (<[i := false]> fs).
Proof.
  intros Hok Hfs Hi.
  eexists. split; [|split; [by apply pool_ok_after|by apply flags_of_update]].
  apply free_slot; [done|]. destruct Hfs as [Hlen _]. lia.
Qed.

Lemma payload_inj (base c c' : Z) : payload base c = payload base c' -> c = c'.
Proof. unfold payload. nia. Qed.

(** With the slots below [k] taken and the [n] slots from [k] on free,
    [n] calls hand out the slots [k], [k+1], ... in this order and leave
    the pool exhausted. *)
Lemma alloc_n_fills (p_obj : nrf_802154_buffer_allocator_t) (n : nat) :
  forall (k : Z) (w : world),
    pool_ok p_obj w -> capacity p_obj = k + Z.of_nat n -> 0 <= k ->
    (forall j, 0 <= j < k -> flag w j = Some true) ->
    (forall j, k <= j < capacity p_obj -> flag w j = Some false) ->
    exists w',
      alloc_n n p_obj w
      = Ret (payload (p_memory p_obj) <$> seqZ k (Z.of_nat n), w') /\
      pool_ok p_obj w' /\ exhausted p_obj w'.
Proof.
  induction n as [|n IH]; intros k w Hok Hcap Hk Htaken Hfree.
  - exists w. split; [done|]. split; [done|].
    intros j Hj. apply Htaken. lia.
  - cbn [alloc_n].
    rewrite (alloc_claims p_obj w k Hok)
      by (repeat split; [lia|lia|apply Hfree; lia|done]).
    rewrite bind_ret.
    destruct (IH (k + 1) (after_critical_section (set_flag k true (heap w)) w))
      as (w' & Hrun & Hok' & Hall');
      [by apply pool_ok_after|lia|lia| | |].
    + intros j Hj. destruct (decide (j = k)) as [->|Hne].
      * destruct (flag_is_Some w k) as [v Hv]; [destruct Hok; lia|].
        by apply (flag_claimed_eq w k true v).
      * rewrite flag_claimed_ne by lia. apply Htaken. lia.
    + intros j Hj. rewrite flag_claimed_ne by lia. apply Hfree. lia.
    + exists w'. split; [|done].
      rewrite Hrun, bind_ret.
      rewrite (seqZ_cons k) by lia.
      replace (Z.pred (Z.of_nat (S n))) with (Z.of_nat n) by lia.
      by replace (Z.succ k) with (k + 1) by lia.
Qed.

(** C3: on a pool that [initialize] has just set up, [capacity] calls of
    [allocate] return the payloads of the slots 0, 1, ... in this order:
    [capacity] pointers that are pairwise distinct, not null, within
    [base, base + capacity * slot_size) and, the payload being the first
    member of a slot, slot-aligned; one more call returns null. *)
Theorem alloc_capacity_times_then_null
  (mem memsize : Z) (w0 w : world) (p_obj : nrf_802154_buffer_allocator_t) :
  valid_region mem memsize w0 ->
  nrf_802154_buffer_allocator_init mem memsize w0 = Ret (p_obj, w) ->
  data_offset = 0 ->
  exists (ptrs : list Z) (w' : world),
    alloc_n (Z.to_nat (capacity p_obj)) p_obj w = Ret (ptrs, w') /\
    ptrs = payload (p_memory p_obj) <$> seqZ 0 (capacity p_obj) /\
    Z.of_nat (length ptrs) = capacity p_obj /\
    NoDup ptrs /\
    Forall (fun p =>
              p <> NULL /\
              p_memory p_obj <= p < p_memory p_obj + capacity p_obj * slot_size /\
              (p - p_memory p_obj) mod slot_size = 0) ptrs /\
    nrf_802154_buffer_allocator_alloc p_obj w' = Ret (NULL, w').
Proof.
  intros Hvalid Hinit Hoff.
  destruct (init_fresh _ _ _ _ _ Hvalid Hinit) as (Hobj & Hok & Hfree).
  pose proof Hok as (Hcap & _).
  destruct (alloc_n_fills p_obj (Z.to_nat (capacity p_obj)) 0 w)
    as (w' & Hrun & Hok' & Hall'); [done|lia|lia|intros; lia|done|].
  rewrite Z2Nat.id in Hrun by lia.
  eexists _, w'. split; [exact Hrun|]. split; [done|].
  split; [by rewrite length_fmap, length_seqZ; lia|].
  split; [|split].
  - apply NoDup_fmap_2; [|apply NoDup_seqZ].
    intros c c' Heq. by apply payload_inj in Heq.
  - apply Forall_fmap, Forall_forall. intros c Hc.
    apply elem_of_seqZ in Hc. cbn [compose].
    split; [apply (payload_not_null p_obj w); [done|lia]|].
    destruct Hok as (_ & _ & Hbase & _).
    unfold payload. rewrite Hoff. split; [nia|].
    replace (p_memory p_obj + c * slot_size + 0 - p_memory p_obj)
      with (c * slot_size) by lia.
    apply Z.mod_mul. lia.
  - apply alloc_exhausted; [apply Hok'|done].
Qed.

(** One call of the scenario, run on the list of flags. *)
Ltac run_alloc :=
  match goal with
  | Hok : pool_ok ?p ?w, Hfs : flags_of ?p ?w ?fs |- _ =>
    let r := eval vm_compute in (list_find (fun b : bool => b = false) fs) in
    match r with
    | Some (?i, ?x) =>
      let w' := fresh "w" in
      let Hrun := fresh "Hrun" in
      let Hok' := fresh "Hok" in
      let Hfs' := fresh "Hfs" in
      let fs' := eval vm_compute in (<[i := true]> fs) in
      destruct (alloc_flags_claim p w fs i x Hok Hfs eq_refl)
        as (w' & Hrun & Hok' & Hfs');
      change (flags_of p w' fs') in Hfs'; rewrite Hrun, bind_ret;
      clear Hrun Hok Hfs
    | None =>
      rewrite (alloc_flags_exhausted p w fs Hok Hfs eq_refl), bind_ret
    end
  end.

Ltac run_free i :=
  match goal with
  | Hok : pool_ok ?p ?w, Hfs : flags_of ?p ?w ?fs |- _ =>
    let w' := fresh "w" in
    let Hrun := fresh "Hrun" in
    let Hok' := fresh "Hok" in
    let Hfs' := fresh "Hfs" in
    let fs' := eval vm_compute in (<[i := false]> fs) in
    destruct (free_flags p w fs i Hok Hfs ltac:(cbn; lia))
      as (w' & Hrun & Hok' & Hfs');
    change (flags_of p w' fs') in Hfs'; rewrite Hrun, bind_ret;
    clear Hrun Hok Hfs
  end.

(** C6: a pointer that [allocate] returned is accepted by [release], which
    puts the flags back as they were, so that the next [allocate] claims
    the same slot again; and on a pool of three free slots the scenario
    returns slot 0, slot 1, slot 2, null, slot 1 again, and, after the
    three releases, slot 0, slot 1 and slot 2 once more. *)
Theorem alloc_release_round_trip (p_obj : nrf_802154_buffer_allocator_t) (w : world) :
  pool_ok p_obj w ->
  (forall (p : Z) (w1 : world),
     nrf_802154_buffer_allocator_alloc p_obj w = Ret (p, w1) -> p <> NULL ->
     exists w2 w3,
       nrf_802154_buffer_allocator_free p_obj p w1 = Ret w2 /\
       (forall j, 0 <= j -> flag w2 j = flag w j) /\
       nrf_802154_buffer_allocator_alloc p_obj w2 = Ret (p, w3)) /\
  (capacity p_obj = 3 ->
   (forall j, 0 <= j < 3 -> flag w j = Some false) ->
   let s0 := payload (p_memory p_obj) 0 in
   let s1 := payload (p_memory p_obj) 1 in
   let s2 := payload (p_memory p_obj) 2 in
   NoDup [s0; s1; s2] /\ s0 <> NULL /\ s1 <> NULL /\ s2 <> NULL /\
   exists w',
     scenario p_obj w = Ret ([s0; s1; s2; NULL; s1; s0; s1; s2], w') /\
     forall j, 0 <= j < 3 -> flag w' j = Some true).
Proof.
  intros Hok. split.
  - intros p w1 Halloc Hp.
    destruct (first_free_or_exhausted p_obj w) as [[c Hc]|Hall]; [apply Hok| |].
    + rewrite (alloc_claims p_obj w c Hok Hc) in Halloc.
      injection Halloc as <- <-.
      pose proof Hc as (Hrange & Hfree & Hlow).
      set (w1 := after_critical_section (set_flag c true (heap w)) w).
      assert (pool_ok p_obj w1) as Hok1 by (by apply pool_ok_after).
      set (w2 := after_critical_section (set_flag c false (heap w1)) w1).
      assert (forall j, 0 <= j -> flag w2 j = flag w j) as Hsame.
      { intros j Hj. destruct (decide (j = c)) as [->|Hne].
        - unfold w2. rewrite (flag_claimed_eq w1 c false true); [done|].
          by apply (flag_claimed_eq w c true false).
        - unfold w2. rewrite flag_claimed_ne by lia.
          unfold w1. by rewrite flag_claimed_ne by lia. }
      exists w2, (after_critical_section (set_flag c true (heap w2)) w2).
      split; [by apply free_slot|]. split; [done|].
      apply alloc_claims; [by apply pool_ok_after|].
      repeat split; [lia|lia|by rewrite Hsame by lia|].
      intros j Hj. rewrite Hsame by lia. by apply Hlow.
    + rewrite alloc_exhausted in Halloc; [|apply Hok|done]. by injection Halloc as <- <-.
  - intros Hcap Hfree s0 s1 s2.
    split.
    { repeat constructor; rewrite ?elem_of_cons, ?elem_of_nil;
        intros H; repeat (destruct H as [H|H]); try done;
        apply payload_inj in H; lia. }
    split; [apply (payload_not_null p_obj w); [done|lia]|].
    split; [apply (payload_not_null p_obj w); [done|lia]|].
    split; [apply (payload_not_null p_obj w); [done|lia]|].
    assert (flags_of p_obj w [false; false; false]) as Hfs.
    { split; [by rewrite Hcap|]. intros j Hj.
      rewrite Hfree by (cbn in Hj; lia).
      by destruct j as [|[|[|j]]]; [| | |cbn in Hj; lia]. }
    unfold scenario.
    change s0 with (payload (p_memory p_obj) (Z.of_nat 0)).
    change s1 with (payload (p_memory p_obj) (Z.of_nat 1)).
    change s2 with (payload (p_memory p_obj) (Z.of_nat 2)).
    run_alloc. run_alloc. run_alloc. run_alloc.
    run_free 1%nat.
    run_alloc.
    run_free 0%nat. run_free 2%nat. run_free 1%nat.
    run_alloc. run_alloc. run_alloc.
    eexists. split; [reflexivity|].
    intros j Hj.
    match goal with Hfs : flags_of _ _ _ |- _ => destruct Hfs as [_ Hfs0] end.
    replace j with (Z.of_nat (Z.to_nat j)) by lia.
    rewrite Hfs0 by (cbn; lia).
    by destruct (Z.to_nat j) as [|[|[|k]]] eqn:E; [| | |lia].
Qed.

(** ** Termination *)

Lemma free_returns_or_asserts (p_obj : nrf_802154_buffer_allocator_t) (w : world) (p : Z) :
  capacity p_obj <= Z.of_nat (length (heap w)) ->
  nrf_802154_buffer_allocator_free p_obj p w = AssertFail \/
  exists w', nrf_802154_buffer_allocator_free p_obj p w = Ret w'.
Proof.
  intros Hlen. unfold nrf_802154_buffer_allocator_free, buffer_free.
  set (idx := wrap32 (p - p_memory p_obj) / slot_size).
  assert (0 <= idx) as Hidx.
  { apply Z.div_pos; [|lia]. unfold wrap32, UINT32_MOD. apply Z.mod_pos_bound. lia. }
  destruct (Z.ltb_spec idx (capacity p_obj)) as [Hlt|Hge]; [right|by left].
  destruct (flag_is_Some w idx) as [v Hv]; [lia|].
  rewrite (store_taken_flag (critical_section_enter w) idx false v)
    by (by rewrite flag_critical_section_enter).
  by eexists.
Qed.

(** C8: when nothing pre-empts, the one scan of [allocate] executes the
    loop body at most [capacity] times and ends with [retry] false, so the
    call returns after a single pass of the [do]-[while] body (more fuel
    changes nothing); [release] has no loop and returns or asserts; and
    [initialize] returns, or asserts, within [capacity] iterations. *)
Theorem operations_are_bounded_by_capacity
  (p_obj : nrf_802154_buffer_allocator_t) (w : world) :
  pool_ok p_obj w ->
  let base := p_memory p_obj in
  let cap := capacity p_obj in
  (exists l w',
     for_loop idle base cap (Z.to_nat cap) 0 0 (set_retry false initial_locals) w
     = Ret (l, w') /\ retry l = false) /\
  (exists r w',
     nrf_802154_buffer_allocator_alloc p_obj w = Ret (r, w') /\
     forall rounds steps : nat,
       (1 <= rounds)%nat -> (Z.to_nat cap <= steps)%nat ->
       buffer_alloc idle base cap rounds steps w = Ret (r, w')) /\
  (forall p,
     nrf_802154_buffer_allocator_free p_obj p w = AssertFail \/
     exists w', nrf_802154_buffer_allocator_free p_obj p w = Ret w') /\
  (forall mem memsize,
     valid_region mem memsize w ->
     nrf_802154_buffer_allocator_init mem memsize w = AssertFail \/
     exists p_obj' w', nrf_802154_buffer_allocator_init mem memsize w = Ret (p_obj', w')).
Proof.
  intros Hok base cap.
  pose proof Hok as (Hcap & Hlen & Hbase & Hfit & Hnull). fold cap in Hcap.
  assert (pool_ok (Allocator base cap) w) as Hok' by (by destruct p_obj).
  split; [|split; [|split]].
  - destruct (first_free_or_exhausted p_obj w) as [[c (Hc & Hf & Hlow)]|Hall]; [done| |].
    + eexists _, _. fold cap in Hc. split.
      * apply (for_loop_idle_found base cap ltac:(lia) c (Z.to_nat c));
          [lia|lia|lia|intros; apply Hlow; lia|done|lia].
      * reflexivity.
    + eexists _, _. split.
      * apply (for_loop_idle_exhausted base cap ltac:(lia) (Z.to_nat cap));
          [lia|lia|intros; apply Hall; fold cap; lia|lia].
      * by destruct (Z.to_nat cap).
  - destruct (first_free_or_exhausted p_obj w) as [[c Hc]|Hall]; [done| |].
    + eexists _, _. split; [by apply alloc_claims|].
      intros rounds steps Hrounds Hsteps.
      by apply (buffer_alloc_idle_claims base cap rounds steps w c); [|destruct p_obj| |].
    + eexists _, _. split; [by apply alloc_exhausted|].
      intros rounds steps Hrounds Hsteps.
      by apply (buffer_alloc_idle_exhausted base cap rounds steps w); [|destruct p_obj| |].
  - intros p. by apply free_returns_or_asserts.
  - intros mem memsize Hvalid.
    destruct (decide (memsize / slot_size = 0 \/ mem <> NULL)) as [Hassert|Hassert].
    + right. eexists _, _. by apply init_returns.
    + left. unfold nrf_802154_buffer_allocator_init.
      destruct ((memsize / slot_size =? 0)
                || negb (memsize / slot_size =? 0) && negb (mem =? NULL)) eqn:E; [|done].
      by apply init_assertion in E.
Qed.

(** ** Assertions *)

Lemma init_loop_not_assert (fuel : nat) :
  forall (i cap : Z) (w : world), init_loop fuel i cap w <> AssertFail.
Proof.
  induction fuel as [|fuel IH]; intros i cap w; cbn [init_loop];
    destruct (i <? cap); try done.
  unfold store_taken. destruct (heap w !! Z.to_nat i); [|done].
  rewrite bind_ret. apply IH.
Qed.

(** C7, as the code has it: [initialize] asserts exactly when the
    capacity is not zero and the memory is null; [release] asserts exactly
    when the index computed from the handle is not below the capacity; a
    handle whose index is below the capacity is accepted, whatever the flag
    of that slot and whatever the alignment of the handle, and the flag of
    that slot is cleared. *)
Theorem assertions_guard_null_memory_and_index
  (p_obj : nrf_802154_buffer_allocator_t) (w : world) (p mem memsize : Z) :
  let idx := wrap32 (p - p_memory p_obj) / slot_size in
  (nrf_802154_buffer_allocator_init mem memsize w = AssertFail
   <-> memsize / slot_size <> 0 /\ mem = NULL) /\
  (nrf_802154_buffer_allocator_free p_obj p w = AssertFail
   <-> capacity p_obj <= idx) /\
  (idx < capacity p_obj <= Z.of_nat (length (heap w)) ->
   nrf_802154_buffer_allocator_free p_obj p w
   = Ret (after_critical_section (set_flag idx false (heap w)) w)).
Proof.
  intros idx. split; [|split].
  - unfold nrf_802154_buffer_allocator_init.
    destruct ((memsize / slot_size =? 0)
              || negb (memsize / slot_size =? 0) && negb (mem =? NULL)) eqn:E.
    + apply init_assertion in E. split; [|intros [? ?]; by destruct E].
      cbn [capacity].
      destruct (init_loop (Z.to_nat (memsize / slot_size)) 0 (memsize / slot_size) w)
        eqn:El; cbn [bind]; try done.
      by destruct (init_loop_not_assert _ _ _ _ El).
    + split; [intros _|done].
      destruct (decide (memsize / slot_size = 0)) as [H0|H0];
        [rewrite (proj2 (init_assertion _ mem)) in E by (by left); done|].
      split; [done|].
      destruct (decide (mem = NULL)) as [Hn|Hn]; [done|].
      rewrite (proj2 (init_assertion _ mem)) in E by (by right). done.
  - unfold nrf_802154_buffer_allocator_free, buffer_free. fold idx.
    destruct (Z.ltb_spec idx (capacity p_obj)) as [Hlt|Hge]; [|done].
    split; [|lia]. unfold store_taken.
    by destruct (heap (critical_section_enter w) !! Z.to_nat idx).
  - intros [Hlt Hlen].
    assert (0 <= idx) as Hidx.
    { apply Z.div_pos; [|lia]. unfold wrap32, UINT32_MOD. apply Z.mod_pos_bound. lia. }
    unfold nrf_802154_buffer_allocator_free, buffer_free. fold idx.
    replace (idx <? capacity p_obj) with true by (symmetry; apply Z.ltb_lt; lia).
    destruct (flag_is_Some w idx) as [v Hv]; [lia|].
    rewrite (store_taken_flag (critical_section_enter w) idx false v)
      by (by rewrite flag_critical_section_enter).
    by rewrite bind_ret, heap_critical_section_enter, critical_section_round_trip.
Qed.

(** ** [allocate] under pre-emption *)

Section Preempted.

Variable env : environment.
Variable base : Z.
Variable len : Z.

(** Whatever pre-empts, with the lock in place a scan that was entered
    with [success] false either leaves it false or has claimed a slot that
    was free while interrupts were masked. *)
Lemma for_loop_claims_under_lock (fuel : nat) :
  forall (round : nat) (i : Z) (l l' : locals) (w w' : world),
    THREAD_SAFE = true -> success l = false ->
    for_loop env base len fuel round i l w = Ret (l', w') ->
    success l' = false \/
    exists c q,
      c < len /\ PRIMASK q = true /\ flag q c = Some false /\
      l' = Locals (base + c * slot_size) true (retry l) /\
      w' = critical_section_exit (set_heap (set_flag c true (heap q)) q).
Proof.
  induction fuel as [|fuel IH]; intros round i l l' w w' Hts Hs Hrun;
    cbn [for_loop] in Hrun;
    destruct (Z.ltb_spec i len) as [Hi|Hi]; try done;
    try (injection Hrun as <- <-; by left).
  destruct (load_taken i (preempt env (BeforeCheck round i) w)) as [t| | |] eqn:Et;
    try done.
  rewrite bind_ret in Hrun. destruct t; cbn [negb] in Hrun.
  { by apply (IH _ _ _ _ _ _ Hts) in Hrun. }
  set (q := critical_section_enter
              (preempt env (Window round) (preempt env (BeforeCheck round i) w))) in *.
  assert (PRIMASK q = true) as Hq.
  { unfold q, critical_section_enter. by rewrite Hts. }
  destruct (load_taken i q) as [t'| | |] eqn:Et'; try done.
  rewrite bind_ret in Hrun. destruct t'.
  { injection Hrun as <- <-. by left. }
  rewrite (preempt_masked _ _ _ Hq) in Hrun.
  apply load_taken_ret in Et'.
  rewrite (store_taken_flag q i true false Et'), bind_ret in Hrun.
  injection Hrun as <- <-. right. exists i, q.
  by repeat split.
Qed.

Lemma for_loop_keeps_success (fuel : nat) :
  forall (round : nat) (i : Z) (l l' : locals) (w w' : world),
    for_loop env base len fuel round i l w = Ret (l', w') ->
    retry l' = true -> retry l = false -> success l' = success l.
Proof.
  induction fuel as [|fuel IH]; intros round i l l' w w' Hrun Hr' Hr;
    cbn [for_loop] in Hrun;
    destruct (i <? len); try done;
    try (injection Hrun as <- <-; congruence).
  destruct (load_taken i (preempt env (BeforeCheck round i) w)) as [t| | |];
    try done.
  rewrite bind_ret in Hrun. destruct t; cbn [negb] in Hrun.
  { by apply IH in Hrun. }
  match type of Hrun with
  | bind (load_taken i ?q) _ = _ => destruct (load_taken i q) as [t'| | |]; try done
  end.
  rewrite bind_ret in Hrun. destruct t'.
  { by injection Hrun as <- <-. }
  match type of Hrun with
  | bind (store_taken i true ?q) _ = _ =>
    destruct (store_taken i true q) as [q'| | |]; try done
  end.
  rewrite bind_ret in Hrun. injection Hrun as <- <-.
  cbn in Hr'. congruence.
Qed.

Lemma do_while_claims_under_lock (steps rounds : nat) :
  forall (round : nat) (l l' : locals) (w w' : world),
    THREAD_SAFE = true -> success l = false ->
    do_while env base len rounds steps round l w = Ret (l', w') ->
    success l' = false \/
    exists c q,
      c < len /\ PRIMASK q = true /\ flag q c = Some false /\
      p_buffer l' = base + c * slot_size /\
      w' = critical_section_exit (set_heap (set_flag c true (heap q)) q).
Proof.
  induction rounds as [|rounds IH]; intros round l l' w w' Hts Hs Hrun;
    cbn [do_while] in Hrun; [done|].
  destruct (for_loop env base len steps round 0 (set_retry false l) w)
    as [[l1 w1]| | |] eqn:Efor; try done.
  rewrite bind_ret in Hrun.
  destruct (retry l1) eqn:Er.
  - apply (IH _ _ _ _ _ Hts) in Hrun; [done|].
    by rewrite (for_loop_keeps_success _ _ _ _ _ _ _ Efor Er).
  - injection Hrun as <- <-.
    destruct (for_loop_claims_under_lock _ _ _ (set_retry false l) _ _ _ Hts Hs Efor)
      as [?|(c & q & ? & ? & ? & -> & ?)]; [by left|].
    right. by exists c, q.
Qed.

(** In a round in which the environment does nothing the scan is the
    sequential one. *)
Lemma for_loop_quiet (round : nat) (fuel : nat) :
  (forall i w, env (BeforeCheck round i) w = w) ->
  (forall w, env (Window round) w = w) ->
  (forall w, env (Locked round) w = w) ->
  forall (i : Z) (l : locals) (w : world),
    for_loop env base len fuel round i l w = for_loop idle base len fuel round i l w.
Proof.
  intros Hb Hw Hl.
  assert (forall s w, (exists i, s = BeforeCheck round i) \/ s = Window round \/
                      s = Locked round -> preempt env s w = w) as Hpre.
  { intros s w Hs. unfold preempt. destruct (PRIMASK w); [done|].
    destruct Hs as [[i ->]|[->| ->]]; auto. }
  induction fuel as [|fuel IH]; intros i l w; cbn [for_loop]; [done|].
  destruct (i <? len); [|done].
  rewrite !preempt_idle, !Hpre by eauto.
  destruct (load_taken i w) as [[|]| | |]; cbn [bind negb]; [apply IH|done..].
Qed.

End Preempted.

Lemma critical_section_empty (w : world) :
  critical_section_exit (critical_section_enter w)
  = after_critical_section (heap w) w.
Proof.
  unfold critical_section_exit, critical_section_enter, after_critical_section.
  by destruct THREAD_SAFE, w.
Qed.

(** The scan of round [k] when the pre-empting context takes the candidate
    slot [c] in the window: the re-check under the lock sees the slot
    taken, and the scan ends with [retry] set and nothing claimed. *)
Lemma for_loop_lost_race (base len : Z) (k : nat) (f : world -> world) (c : Z) (n : nat) :
  len < UINT32_MOD ->
  forall (i : Z) (fuel : nat) (l : locals) (w : world),
    c = i + Z.of_nat n -> 0 <= i -> c < len ->
    (forall j, i <= j < c -> flag w j = Some true) ->
    flag w c = Some false ->
    PRIMASK w = false ->
    flag (f w) c = Some true ->
    (n < fuel)%nat ->
    for_loop (at_window k f) base len fuel k i l w
    = Ret (set_retry true (set_p_buffer (base + c * slot_size) l),
           after_critical_section (heap (f w)) (f w)).
Proof.
  intros Hmax.
  assert (forall i w, preempt (at_window k f) (BeforeCheck k i) w = w) as Hbefore.
  { intros i w. unfold preempt. by destruct (PRIMASK w). }
  induction n as [|n IH]; intros i fuel l w Hc Hi Hlen Hpre Hfree Hmask Hlost Hfuel;
    (destruct fuel as [|fuel]; [lia|]); cbn [for_loop];
    (replace (i <? len) with true by (symmetry; apply Z.ltb_lt; lia));
    rewrite Hbefore.
  - assert (i = c) as -> by lia.
    rewrite (load_taken_flag _ _ _ Hfree), bind_ret. cbn [negb].
    assert (preempt (at_window k f) (Window k) w = f w) as ->.
    { unfold preempt, at_window. by rewrite Hmask, Nat.eqb_refl. }
    rewrite (load_taken_flag (critical_section_enter (f w)) c true)
      by (by rewrite flag_critical_section_enter).
    by rewrite bind_ret, critical_section_empty.
  - rewrite (load_taken_flag w i true) by (apply Hpre; lia).
    rewrite bind_ret. cbn [negb].
    rewrite wrap32_small by lia.
    rewrite (IH (i + 1) fuel _ w); [reflexivity|lia|lia|lia| |done|done|done|lia].
    intros j Hj. apply Hpre. lia.
Qed.

(** After a lost race [allocate] starts over at slot 0 of the pool as the
    pre-empting context left it. *)
Lemma lost_race_restarts (base cap : Z) (f : world -> world) (w : world) (c : Z)
  (rounds steps : nat) :
  pool_ok (Allocator base cap) w -> PRIMASK w = false ->
  first_free (Allocator base cap) w c ->
  cap <= Z.of_nat (length (heap (f w))) ->
  flag (f w) c = Some true ->
  (2 <= rounds)%nat -> (Z.to_nat cap <= steps)%nat ->
  let w1 := after_critical_section (heap (f w)) (f w) in
  (forall c', first_free (Allocator base cap) (f w) c' ->
     buffer_alloc (at_window 0 f) base cap rounds steps w
     = Ret (payload base c', after_critical_section (set_flag c' true (heap (f w))) w1)) /\
  (exhausted (Allocator base cap) (f w) ->
     buffer_alloc (at_window 0 f) base cap rounds steps w = Ret (NULL, w1)).
Proof.
  intros (Hcap & Hlen & Hbase & Hfit & Hnull) Hmask (Hc & Hf & Hlow) Hlen' Hlost
    Hrounds Hsteps w1.
  cbn [capacity p_memory] in *.
  destruct rounds as [|[|rounds]]; [lia|lia|].
  assert (forall l,
            do_while (at_window 0 f) base cap (S (S rounds)) steps 0 l w
            = let* '(l', w') := for_loop idle base cap steps 1 0
                                  (Locals (base + c * slot_size) (success l) false) w1
              in if retry l' then do_while (at_window 0 f) base cap rounds steps 2 l' w'
                 else Ret (l', w')) as Hround.
  { intros l. cbn [do_while].
    rewrite (for_loop_lost_race base cap 0 f c (Z.to_nat c) ltac:(lia));
      [|lia|lia|lia|intros; apply Hlow; lia|done|done|done|lia].
    rewrite bind_ret. cbn [retry set_retry set_p_buffer success p_buffer].
    by rewrite for_loop_quiet. }
  unfold buffer_alloc, buffer_alloc_loops. rewrite Hround. cbn [success initial_locals].
  split.
  - intros c' (Hc' & Hf' & Hlow'). cbn [capacity] in *.
    rewrite (for_loop_idle_found base cap ltac:(lia) c' (Z.to_nat c'));
      [|lia|lia|lia|intros; apply Hlow'; lia|done|lia].
    rewrite bind_ret. cbn [retry set_success set_p_buffer success p_buffer].
    rewrite bind_ret. unfold return_value.
    cbn [retry set_success set_p_buffer success p_buffer].
    replace (base + c' * slot_size =? NULL) with false; [done|].
    symmetry. apply Z.eqb_neq. unfold NULL in *. nia.
  - intros Hall. unfold exhausted in Hall. cbn [capacity] in *.
    rewrite (for_loop_idle_exhausted base cap ltac:(lia) (Z.to_nat cap));
      [|lia|lia|intros; apply Hall; lia|lia].
    rewrite bind_ret. by destruct (Z.to_nat cap).
Qed.

(** C1: on a pool with a free slot, [allocate] claims the free slot of
    lowest index: it returns the payload address of that slot and sets the
    flag of that slot and of no other.  And when the re-check under the
    lock finds the candidate taken, because a pre-empting context changed
    the pool in the window, the scan starts over at slot 0: the call claims
    the free slot of lowest index of the pool as it is now, whether that
    slot lies above or below the lost candidate, or returns null when none
    is left. *)
Theorem alloc_claims_lowest_free_slot (p_obj : nrf_802154_buffer_allocator_t) (w : world) :
  pool_ok p_obj w ->
  (exists i, 0 <= i < capacity p_obj /\ flag w i = Some false) ->
  exists c,
    first_free p_obj w c /\
    (exists w',
       nrf_802154_buffer_allocator_alloc p_obj w = Ret (payload (p_memory p_obj) c, w') /\
       heap w' = set_flag c true (heap w) /\
       PRIMASK w' = PRIMASK w /\
       flag w' c = Some true /\
       forall j, 0 <= j -> j <> c -> flag w' j = flag w j) /\
    (forall f : world -> world,
       PRIMASK w = false ->
       capacity p_obj <= Z.of_nat (length (heap (f w))) ->
       flag (f w) c = Some true ->
       (forall c', first_free p_obj (f w) c' ->
          exists w',
            buffer_alloc (at_window 0 f) (p_memory p_obj) (capacity p_obj)
              2 (Z.to_nat (capacity p_obj)) w
            = Ret (payload (p_memory p_obj) c', w') /\
            heap w' = set_flag c' true (heap (f w))) /\
       (exhausted p_obj (f w) ->
          exists w',
            buffer_alloc (at_window 0 f) (p_memory p_obj) (capacity p_obj)
              2 (Z.to_nat (capacity p_obj)) w
            = Ret (NULL, w') /\
            heap w' = heap (f w))).
Proof.
  intros Hok (i & Hi & Hfree).
  destruct (first_free_or_exhausted p_obj w) as [[c Hc]|Hall]; [apply Hok| |];
    [|rewrite (Hall i Hi) in Hfree; done].
  exists c. split; [done|]. split.
  - eexists. split; [by apply alloc_claims|].
    pose proof Hc as (Hrange & Hf & _).
    repeat split.
    + by apply (flag_claimed_eq w c true false).
    + intros j Hj Hne. apply flag_claimed_ne; lia.
  - intros f Hmask Hlen Hlost. destruct p_obj as [base cap]. cbn [capacity p_memory] in *.
    destruct (lost_race_restarts base cap f w c 2 (Z.to_nat cap))
      as [Hfound Hnone]; [done..|lia|lia|].
    split.
    + intros c' Hc'. eexists. split; [by apply Hfound|done].
    + intros Hall. eexists. split; [by apply Hnone|done].
Qed.

(** C9: a handler that pre-empts [allocate] in the window and allocates
    itself gets the candidate slot; the interrupted call then finds the
    slot taken under the lock and returns another slot or null, never the
    handler's.  And with the lock in place, whatever pre-empts and wherever,
    a slot is claimed only when its flag was seen clear with interrupts
    masked, in the critical section that sets it. *)
Theorem no_double_allocation (p_obj : nrf_802154_buffer_allocator_t) (w : world) (c : Z) :
  pool_ok p_obj w -> PRIMASK w = false -> first_free p_obj w c ->
  let base := p_memory p_obj in
  let cap := capacity p_obj in
  (exists w_isr r_main w_end,
     nrf_802154_buffer_allocator_alloc p_obj w = Ret (payload base c, w_isr) /\
     isr_alloc p_obj w = w_isr /\
     buffer_alloc (at_window 0 (isr_alloc p_obj)) base cap 2 (Z.to_nat cap) w
     = Ret (r_main, w_end) /\
     r_main <> payload base c /\
     flag w_end c = Some true /\
     (r_main = NULL /\ exhausted p_obj w_isr \/
      exists c', c' <> c /\ first_free p_obj w_isr c' /\
                 r_main = payload base c' /\ flag w_end c' = Some true)) /\
  (THREAD_SAFE = true ->
   forall (env : environment) (rounds steps : nat) (r : Z) (w' : world),
     buffer_alloc env base cap rounds steps w = Ret (r, w') -> r <> NULL ->
     exists c' q,
       c' < cap /\ PRIMASK q = true /\ flag q c' = Some false /\
       r = payload base c' /\
       w' = critical_section_exit (set_heap (set_flag c' true (heap q)) q)).
Proof.
  intros Hok Hmask Hc base cap. split.
  - set (w_isr := after_critical_section (set_flag c true (heap w)) w).
    assert (isr_alloc p_obj w = w_isr) as Hisr.
    { unfold isr_alloc. by rewrite (alloc_claims p_obj w c Hok Hc). }
    pose proof Hc as (Hrange & Hf & _).
    assert (flag w_isr c = Some true) as Htaken
      by (by apply (flag_claimed_eq w c true false)).
    assert (pool_ok p_obj w_isr) as Hok' by (by apply pool_ok_after).
    assert (pool_ok (Allocator base cap) w) as Hokw by (by destruct p_obj).
    assert (first_free (Allocator base cap) w c) as Hcw by (by destruct p_obj).
    destruct (lost_race_restarts base cap (isr_alloc p_obj) w c 2 (Z.to_nat cap))
      as [Hfound Hnone]; [done|done|done|rewrite Hisr; apply Hok'|by rewrite Hisr|lia|lia|].
    rewrite Hisr in Hfound, Hnone.
    destruct (first_free_or_exhausted p_obj w_isr) as [[c' Hc']|Hall]; [apply Hok'| |].
    + assert (c' <> c) as Hne.
      { intros ->. destruct Hc' as (_ & Hf' & _). congruence. }
      pose proof Hc' as (Hrange' & Hf' & _).
      exists w_isr. eexists _, _.
      split; [by apply alloc_claims|]. split; [done|].
      split; [apply Hfound; by destruct p_obj|].
      split; [intros Heq; by apply payload_inj in Heq|].
      split.
      * by rewrite (flag_set_flag_ne w_isr _ c' c true) by (done || lia).
      * right. exists c'. split; [done|]. split; [done|]. split; [done|].
        by apply (flag_heap_set_flag_eq w_isr _ c' true false).
    + exists w_isr. eexists _, _.
      split; [by apply alloc_claims|]. split; [done|].
      split; [apply Hnone; by destruct p_obj|].
      split; [intros Heq; symmetry in Heq; by apply (payload_not_null p_obj w) in Heq|].
      split; [done|by left].
  - intros Hts env rounds steps r w' Hrun Hr.
    unfold buffer_alloc, buffer_alloc_loops in Hrun.
    destruct (do_while env base cap rounds steps 0 initial_locals w)
      as [[l1 w1]| | |] eqn:Eloops; try done.
    rewrite bind_ret in Hrun. unfold return_value in Hrun.
    destruct (do_while_claims_under_lock env base cap steps rounds
                0%nat initial_locals l1 w w1 Hts eq_refl Eloops)
      as [Hs|(c' & q & Hlt & Hq & Hf & Hp & Hw)].
    + rewrite Hs in Hrun. by injection Hrun as <- <-.
    + exists c', q.
      destruct (success l1); [|by injection Hrun as <- <-].
      destruct (p_buffer l1 =? NULL); [done|].
      injection Hrun as <- <-. by rewrite Hp.
Qed.

(** * Further properties of the code *)

(** ** What a store touches *)

Lemma store_taken_frame (i : Z) (v : bool) (w w' : world) :
  store_taken i v w = Ret w' ->
  data <$> heap w' = data <$> heap w /\
  length (heap w') = length (heap w) /\
  PRIMASK w' = PRIMASK w /\
  m_critical_section w' = m_critical_section w /\
  flag w' i = Some v.
Proof.
  unfold store_taken, flag.
  destruct (heap w !! Z.to_nat i) as [b|] eqn:E; [|done].
  intros [= <-]. cbn [heap set_heap PRIMASK m_critical_section].
  repeat split.
  - rewrite list_fmap_insert. apply list_insert_id.
    by rewrite list_lookup_fmap, E.
  - apply length_insert.
  - rewrite list_lookup_insert_eq by (by eapply lookup_lt_Some). done.
Qed.

Lemma heap_critical_section_exit (w : world) :
  heap (critical_section_exit w) = heap w.
Proof. unfold critical_section_exit. by destruct THREAD_SAFE. Qed.

Lemma mask_critical_section_enter (w : world) :
  PRIMASK w = true -> PRIMASK (critical_section_enter w) = true.
Proof. unfold critical_section_enter. by destruct THREAD_SAFE. Qed.

Lemma preempt_keeps_mask (env : environment) (s : site) (w : world) :
  keeps_mask env -> PRIMASK (preempt env s w) = PRIMASK w.
Proof. intros Hk. unfold preempt. destruct (PRIMASK w) eqn:E; [done|]. by rewrite Hk. Qed.

Section AnyEnvironmentMask.

Variable env : environment.
Variable base : Z.
Variable len : Z.

(** The scan returns with the interrupt mask as it found it. *)
Lemma for_loop_mask (fuel : nat) :
  keeps_mask env ->
  forall (round : nat) (i : Z) (l l' : locals) (w w' : world),
    for_loop env base len fuel round i l w = Ret (l', w') ->
    PRIMASK w' = PRIMASK w.
Proof.
  intros Hk.
  induction fuel as [|fuel IH]; intros round i l l' w w' Hrun;
    cbn [for_loop] in Hrun;
    destruct (i <? len); try done;
    try (by injection Hrun as <- <-).
  set (w0 := preempt env (BeforeCheck round i) w) in *.
  assert (PRIMASK w0 = PRIMASK w) as H0 by (by apply preempt_keeps_mask).
  destruct (load_taken i w0) as [t| | |]; try done.
  rewrite bind_ret in Hrun. destruct t; cbn [negb] in Hrun.
  { apply IH in Hrun. congruence. }
  set (w1 := preempt env (Window round) w0) in *.
  assert (PRIMASK w1 = PRIMASK w) as H1
    by (unfold w1; rewrite preempt_keeps_mask by done; done).
  destruct (load_taken i (critical_section_enter w1)) as [t'| | |]; try done.
  rewrite bind_ret in Hrun. destruct t'.
  { injection Hrun as <- <-. by rewrite critical_section_empty. }
  destruct (store_taken i true (preempt env (Locked round) (critical_section_enter w1)))
    as [w3| | |] eqn:Es; try done.
  rewrite bind_ret in Hrun. injection Hrun as <- <-.
  apply store_taken_frame in Es as (_ & _ & Hp & Hm & _).
  revert Hp Hm. unfold critical_section_exit, critical_section_enter.
  destruct THREAD_SAFE; cbn [PRIMASK m_critical_section].
  - rewrite preempt_masked by done. cbn [PRIMASK m_critical_section]. congruence.
  - rewrite preempt_keeps_mask by done. congruence.
Qed.


End AnyEnvironmentMask.

Section AnyEnvironment.

Variable env : environment.
Variable base : Z.
Variable len : Z.



(** With interrupts masked by the caller the environment never runs. *)
Lemma for_loop_masked (fuel : nat) :
  forall (round : nat) (i : Z) (l : locals) (w : world),
    PRIMASK w = true ->
    for_loop env base len fuel round i l w = for_loop idle base len fuel round i l w.
Proof.
  induction fuel as [|fuel IH]; intros round i l w Hm; cbn [for_loop]; [done|].
  destruct (i <? len); [|done].
  rewrite !preempt_idle, !preempt_masked by done.
  destruct (load_taken i w) as [[|]| | |]; cbn [bind negb]; [by apply IH| |done..].
  by rewrite !preempt_masked by (by apply mask_critical_section_enter).
Qed.

Lemma do_while_masked (steps rounds : nat) :
  forall (round : nat) (l : locals) (w : world),
    PRIMASK w = true ->
    do_while env base len rounds steps round l w
    = do_while idle base len rounds steps round l w.
Proof.
  induction rounds as [|rounds IH]; intros round l w Hm; cbn [do_while]; [done|].
  rewrite for_loop_masked by done.
  destruct (for_loop idle base len steps round 0 (set_retry false l) w)
    as [[l1 w1]| | |] eqn:Efor; cbn [bind]; try done.
  destruct (retry l1); [|done].
  apply IH.
  rewrite <- Hm.
  by apply (for_loop_mask idle base len steps ltac:(done) _ _ _ _ _ _ Efor).
Qed.

End AnyEnvironment.


(** X2: a caller that has interrupts masked cannot be pre-empted: under
    every environment [buffer_alloc] does what it does when nothing
    pre-empts, in either configuration of the critical section. *)
Theorem alloc_with_interrupts_masked_is_sequential (env : environment) (base len : Z)
  (rounds steps : nat) (w : world) :
  PRIMASK w = true ->
  buffer_alloc env base len rounds steps w = buffer_alloc idle base len rounds steps w.
Proof.
  intros Hm. unfold buffer_alloc, buffer_alloc_loops.
  by rewrite do_while_masked.
Qed.


(** ** The payload is never written *)

Lemma for_loop_idle_data (base len : Z) (fuel : nat) :
  forall (round : nat) (i : Z) (l l' : locals) (w w' : world),
    for_loop idle base len fuel round i l w = Ret (l', w') ->
    data <$> heap w' = data <$> heap w.
Proof.
  induction fuel as [|fuel IH]; intros round i l l' w w' Hrun;
    cbn [for_loop] in Hrun;
    destruct (i <? len); try done;
    try (by injection Hrun as <- <-).
  rewrite !preempt_idle in Hrun.
  destruct (load_taken i w) as [t| | |]; try done.
  rewrite bind_ret in Hrun. destruct t; cbn [negb] in Hrun; [by eapply IH|].
  destruct (load_taken i (critical_section_enter w)) as [t'| | |]; try done.
  rewrite bind_ret in Hrun. destruct t'.
  { injection Hrun as <- <-.
    by rewrite heap_critical_section_exit, heap_critical_section_enter. }
  destruct (store_taken i true (critical_section_enter w)) as [w3| | |] eqn:Es;
    try done.
  rewrite bind_ret in Hrun. injection Hrun as <- <-.
  apply store_taken_frame in Es as (Hd & _).
  by rewrite heap_critical_section_exit, Hd, heap_critical_section_enter.
Qed.

Lemma init_loop_data (fuel : nat) :
  forall (i cap : Z) (w w' : world),
    init_loop fuel i cap w = Ret w' -> data <$> heap w' = data <$> heap w.
Proof.
  induction fuel as [|fuel IH]; intros i cap w w' Hrun; cbn [init_loop] in Hrun;
    destruct (i <? cap); try done; try (by injection Hrun as <-).
  destruct (store_taken i false w) as [w1| | |] eqn:Es; try done.
  rewrite bind_ret in Hrun. apply IH in Hrun.
  apply store_taken_frame in Es as (Hd & _). congruence.
Qed.

(** X4: none of the three operations writes a payload: when [allocate],
    [release] or [initialize] returns, every slot holds the payload bytes it
    held before, and the array has the length it had. *)
Theorem operations_never_write_payload
  (p_obj : nrf_802154_buffer_allocator_t) (w : world) :
  (forall r w',
     nrf_802154_buffer_allocator_alloc p_obj w = Ret (r, w') ->
     data <$> heap w' = data <$> heap w) /\
  (forall p w',
     nrf_802154_buffer_allocator_free p_obj p w = Ret w' ->
     data <$> heap w' = data <$> heap w) /\
  (forall mem memsize p_obj' w',
     nrf_802154_buffer_allocator_init mem memsize w = Ret (p_obj', w') ->
     data <$> heap w' = data <$> heap w).
Proof.
  split; [|split].
  - intros r w' Hrun.
    unfold nrf_802154_buffer_allocator_alloc, buffer_alloc, buffer_alloc_loops in Hrun.
    cbn [do_while] in Hrun.
    destruct (for_loop idle (p_memory p_obj) (capacity p_obj)
                (Z.to_nat (capacity p_obj)) 0 0 (set_retry false initial_locals) w)
      as [[l1 w1]| | |] eqn:Efor; try done.
    rewrite bind_ret in Hrun. apply for_loop_idle_data in Efor.
    destruct (retry l1); [done|]. rewrite bind_ret in Hrun.
    destruct (return_value l1); try done.
    by injection Hrun as <- <-.
  - intros p w' Hrun.
    unfold nrf_802154_buffer_allocator_free, buffer_free in Hrun.
    destruct (_ <? _); [|done].
    match type of Hrun with
    | bind (store_taken ?i false ?q) _ = _ =>
      destruct (store_taken i false q) as [q'| | |] eqn:Es; try done
    end.
    rewrite bind_ret in Hrun. injection Hrun as <-.
    apply store_taken_frame in Es as (Hd & _).
    by rewrite heap_critical_section_exit, Hd, heap_critical_section_enter.
  - intros mem memsize p_obj' w' Hrun.
    unfold nrf_802154_buffer_allocator_init in Hrun.
    destruct (_ || _); [|done]. cbn [capacity] in Hrun.
    destruct (init_loop _ _ _ w) as [w1| | |] eqn:El; try done.
    rewrite bind_ret in Hrun. injection Hrun as <- <-.
    by apply init_loop_data in El.
Qed.

(** ** Which handles [release] accepts *)

Lemma free_index_nonneg (base p : Z) : 0 <= wrap32 (p - base) / slot_size.
Proof.
  clear data_offset_range.
  apply Z.div_pos; [|lia]. unfold wrap32, UINT32_MOD. apply Z.mod_pos_bound. lia.
Qed.

(** The index that [buffer_free] computes is below the capacity exactly
    for the addresses inside the memory of the pool. *)
Lemma index_in_region (base cap p : Z) :
  0 <= base -> 0 <= cap -> base + cap * slot_size <= UINT32_MOD ->
  0 <= p < UINT32_MOD ->
  wrap32 (p - base) / slot_size < cap <-> base <= p < base + cap * slot_size.
Proof.
  clear data_offset_range.
  intros Hbase Hcap Hfit Hp.
  destruct (Z_lt_le_dec p base) as [Hlt|Hge].
  - assert (wrap32 (p - base) = p - base + UINT32_MOD) as ->.
    { unfold wrap32. rewrite <- (Z_mod_plus_full (p - base) 1 UINT32_MOD).
      apply Z.mod_small. lia. }
    split; [|lia]. intros Hidx.
    assert (cap <= (p - base + UINT32_MOD) / slot_size)
      by (apply Z.div_le_lower_bound; nia).
    lia.
  - rewrite wrap32_small by lia. split.
    + intros Hidx. split; [done|].
      destruct (Z_lt_le_dec (p - base) (cap * slot_size)) as [?|Hbig]; [lia|].
      assert (cap <= (p - base) / slot_size)
        by (apply Z.div_le_lower_bound; nia).
      lia.
    + intros [_ Hhi]. apply Z.div_lt_upper_bound; nia.
Qed.

(** Every address inside slot [c] yields the index [c]. *)
Lemma index_of_slot_address (base c p : Z) :
  0 <= base -> 0 <= c -> p < UINT32_MOD ->
  base + c * slot_size <= p < base + (c + 1) * slot_size ->
  wrap32 (p - base) / slot_size = c.
Proof.
  clear data_offset_range.
  intros Hbase Hc Hp Hin.
  rewrite wrap32_small by nia.
  symmetry. apply (Z.div_unique _ _ c (p - base - c * slot_size)); lia.
Qed.

Lemma free_asserts_iff (p_obj : nrf_802154_buffer_allocator_t) (w : world) (p : Z) :
  nrf_802154_buffer_allocator_free p_obj p w = AssertFail
  <-> capacity p_obj <= wrap32 (p - p_memory p_obj) / slot_size.
Proof.
  unfold nrf_802154_buffer_allocator_free, buffer_free.
  destruct (Z.ltb_spec (wrap32 (p - p_memory p_obj) / slot_size) (capacity p_obj))
    as [Hlt|Hge]; [|done].
  split; [|lia]. unfold store_taken.
  by destruct (heap (critical_section_enter w) !! _).
Qed.

Lemma free_clears_index (p_obj : nrf_802154_buffer_allocator_t) (w : world) (p : Z) :
  wrap32 (p - p_memory p_obj) / slot_size < capacity p_obj ->
  capacity p_obj <= Z.of_nat (length (heap w)) ->
  nrf_802154_buffer_allocator_free p_obj p w
  = Ret (after_critical_section
           (set_flag (wrap32 (p - p_memory p_obj) / slot_size) false (heap w)) w).
Proof.
  intros Hlt Hlen.
  pose proof (free_index_nonneg (p_memory p_obj) p) as Hidx.
  unfold nrf_802154_buffer_allocator_free, buffer_free.
  replace (_ <? _) with true by (symmetry; apply Z.ltb_lt; lia).
  destruct (flag_is_Some w (wrap32 (p - p_memory p_obj) / slot_size)) as [v Hv]; [lia|].
  rewrite (store_taken_flag (critical_section_enter w) _ false v)
    by (by rewrite flag_critical_section_enter).
  by rewrite bind_ret, heap_critical_section_enter, critical_section_round_trip.
Qed.

(** A call of [release] that returns has cleared the flag of the slot at
    the computed index. *)
Lemma free_returns_inv (p_obj : nrf_802154_buffer_allocator_t) (w w1 : world) (p : Z) :
  nrf_802154_buffer_allocator_free p_obj p w = Ret w1 ->
  let idx := wrap32 (p - p_memory p_obj) / slot_size in
  idx < capacity p_obj /\
  is_Some (flag w idx) /\
  w1 = after_critical_section (set_flag idx false (heap w)) w.
Proof.
  intros Hrun idx.
  unfold nrf_802154_buffer_allocator_free, buffer_free in Hrun. fold idx in Hrun.
  destruct (Z.ltb_spec idx (capacity p_obj)) as [Hlt|Hge]; [|done].
  split; [done|].
  destruct (flag (critical_section_enter w) idx) as [v|] eqn:Hv.
  - rewrite (store_taken_flag _ _ false v Hv), bind_ret in Hrun.
    rewrite heap_critical_section_enter, critical_section_round_trip in Hrun.
    injection Hrun as <-. rewrite flag_critical_section_enter in Hv.
    split; [by eexists|done].
  - unfold flag, store_taken in *.
    by destruct (heap (critical_section_enter w) !! Z.to_nat idx).
Qed.

(** X5: for an address in the 32-bit address space, [release] asserts
    exactly when the address lies outside the memory of the pool, below
    [base] included; and an address anywhere inside slot [c], aligned or
    not, releases slot [c]. *)
Theorem release_asserts_exactly_outside_the_pool
  (p_obj : nrf_802154_buffer_allocator_t) (w : world) (p : Z) :
  pool_ok p_obj w -> 0 <= p < UINT32_MOD ->
  let base := p_memory p_obj in
  let cap := capacity p_obj in
  (nrf_802154_buffer_allocator_free p_obj p w = AssertFail
   <-> ~ (base <= p < base + cap * slot_size)) /\
  (forall c,
     0 <= c < cap ->
     base + c * slot_size <= p < base + (c + 1) * slot_size ->
     nrf_802154_buffer_allocator_free p_obj p w
     = Ret (after_critical_section (set_flag c false (heap w)) w)).
Proof.
  clear data_offset_range.
  intros (Hcap & Hlen & Hbase & Hfit & Hnull) Hp base cap.
  pose proof (index_in_region base cap p Hbase ltac:(lia) Hfit Hp) as Hidx.
  split.
  - rewrite free_asserts_iff. fold base cap. rewrite <- Hidx. lia.
  - intros c Hc Hin.
    rewrite free_clears_index; fold base cap.
    + by rewrite (index_of_slot_address base c p) by lia.
    + apply Hidx. nia.
    + done.
Qed.

Lemma set_flag_idem (i : Z) (v : bool) (h : list nrf_802154_buffer_t) :
  set_flag i v (set_flag i v h) = set_flag i v h.
Proof.
  unfold set_flag. destruct (h !! Z.to_nat i) as [b|] eqn:E.
  - rewrite list_lookup_insert_eq by (by eapply lookup_lt_Some).
    by rewrite list_insert_insert_eq.
  - by rewrite E.
Qed.

(** X6: releasing the same handle again changes nothing: a second
    [release] of a handle that was accepted is accepted too and returns the
    machine exactly as the first one left it. *)
Theorem release_twice_is_release_once
  (p_obj : nrf_802154_buffer_allocator_t) (w w1 : world) (p : Z) :
  nrf_802154_buffer_allocator_free p_obj p w = Ret w1 ->
  nrf_802154_buffer_allocator_free p_obj p w1 = Ret w1.
Proof.
  intros Hrun.
  apply free_returns_inv in Hrun as (Hlt & [v Hv] & ->).
  set (idx := wrap32 (p - p_memory p_obj) / slot_size) in *.
  set (w1 := after_critical_section (set_flag idx false (heap w)) w).
  unfold nrf_802154_buffer_allocator_free, buffer_free. fold idx.
  replace (idx <? capacity p_obj) with true by (symmetry; apply Z.ltb_lt; lia).
  rewrite (store_taken_flag (critical_section_enter w1) idx false false).
  - rewrite bind_ret, heap_critical_section_enter, critical_section_round_trip.
    unfold w1 at 1. cbn [heap after_critical_section]. rewrite set_flag_idem.
    unfold w1, after_critical_section. cbn [PRIMASK m_critical_section heap].
    by destruct THREAD_SAFE.
  - rewrite flag_critical_section_enter.
    by apply (flag_claimed_eq w idx false v).
Qed.

(** ** Counting the slots in use *)

Lemma taken_count_cons (b : nrf_802154_buffer_t) (h : list nrf_802154_buffer_t) :
  taken_count (b :: h) = (Nat.b2n (taken b) + taken_count h)%nat.
Proof.
  unfold taken_count. rewrite filter_cons.
  destruct (taken b); case_decide; done.
Qed.

Lemma taken_count_insert (h : list nrf_802154_buffer_t) :
  forall (i : nat) (b b' : nrf_802154_buffer_t),
    h !! i = Some b ->
    (taken_count (<[i := b']> h) + Nat.b2n (taken b)
     = taken_count h + Nat.b2n (taken b'))%nat.
Proof.
  induction h as [|a h IH]; intros [|i] b b' Hb; simplify_eq/=.
  - rewrite !taken_count_cons. lia.
  - rewrite !taken_count_cons. specialize (IH i b b' Hb). lia.
Qed.

Lemma taken_count_set_flag (w : world) (c : Z) (v v' : bool) :
  flag w c = Some v ->
  (taken_count (set_flag c v' (heap w)) + Nat.b2n v
   = taken_count (heap w) + Nat.b2n v')%nat.
Proof.
  unfold flag, set_flag.
  destruct (heap w !! Z.to_nat c) as [b|] eqn:E; [|done].
  intros [= <-]. by apply (taken_count_insert _ _ b).
Qed.

(** X7: the number of slots in use follows the calls: an [allocate] that
    returns a pointer raises it by one, an [allocate] that returns null
    leaves it, a [release] of an occupied slot lowers it by one and a
    [release] of a free slot leaves it. *)
Theorem taken_count_follows_the_calls
  (p_obj : nrf_802154_buffer_allocator_t) (w : world) :
  pool_ok p_obj w ->
  (forall r w',
     nrf_802154_buffer_allocator_alloc p_obj w = Ret (r, w') ->
     taken_count (heap w')
     = (taken_count (heap w) + (if decide (r = NULL) then 0 else 1))%nat) /\
  (forall c v w',
     0 <= c < capacity p_obj -> flag w c = Some v ->
     nrf_802154_buffer_allocator_free p_obj (payload (p_memory p_obj) c) w = Ret w' ->
     (taken_count (heap w') + Nat.b2n v)%nat = taken_count (heap w)).
Proof.
  intros Hok. split.
  - intros r w' Hrun.
    destruct (first_free_or_exhausted p_obj w) as [[c Hc]|Hall]; [apply Hok| |].
    + rewrite (alloc_claims p_obj w c Hok Hc) in Hrun. injection Hrun as <- <-.
      pose proof Hc as (Hrange & Hf & _).
      rewrite decide_False by (by apply (payload_not_null p_obj w)).
      cbn [heap after_critical_section].
      pose proof (taken_count_set_flag w c false true Hf) as Hcount.
      cbn [Nat.b2n] in Hcount. lia.
    + rewrite alloc_exhausted in Hrun; [|apply Hok|done].
      injection Hrun as <- <-. rewrite decide_True by done. lia.
  - intros c v w' Hc Hf Hrun.
    rewrite (free_slot p_obj w c Hok Hc) in Hrun. injection Hrun as <-.
    cbn [heap after_critical_section].
    pose proof (taken_count_set_flag w c v false Hf) as Hcount.
    cbn [Nat.b2n] in Hcount. lia.
Qed.

(** ** [release] followed by [allocate] *)

Lemma set_flag_back (w : world) (c : Z) (v : bool) :
  flag w c = Some v -> set_flag c v (set_flag c (negb v) (heap w)) = heap w.
Proof.
  unfold flag, set_flag.
  destruct (heap w !! Z.to_nat c) as [b|] eqn:E; [|done].
  intros [= <-].
  rewrite list_lookup_insert_eq by (by eapply lookup_lt_Some).
  rewrite list_insert_insert_eq. apply list_insert_id.
  rewrite E. by destruct b.
Qed.

(** X8: after the release of an occupied slot [c] the next [allocate]
    returns the lower of slot [c] and the slot that was the lowest free one
    before; on a pool that was exhausted it returns slot [c] itself and
    leaves the array as it was before the release. *)
Theorem release_then_alloc_returns_lowest
  (p_obj : nrf_802154_buffer_allocator_t) (w : world) (c : Z) :
  pool_ok p_obj w -> 0 <= c < capacity p_obj -> flag w c = Some true ->
  exists w1,
    nrf_802154_buffer_allocator_free p_obj (payload (p_memory p_obj) c) w = Ret w1 /\
    (forall c0, first_free p_obj w c0 ->
       exists w2,
         nrf_802154_buffer_allocator_alloc p_obj w1
         = Ret (payload (p_memory p_obj) (Z.min c c0), w2)) /\
    (exhausted p_obj w ->
       exists w2,
         nrf_802154_buffer_allocator_alloc p_obj w1
         = Ret (payload (p_memory p_obj) c, w2) /\
         heap w2 = heap w).
Proof.
  intros Hok Hc Hocc.
  set (w1 := after_critical_section (set_flag c false (heap w)) w).
  assert (pool_ok p_obj w1) as Hok1 by (by apply pool_ok_after).
  assert (flag w1 c = Some false) as Hfc by (by apply (flag_claimed_eq w c false true)).
  assert (forall j, 0 <= j -> j <> c -> flag w1 j = flag w j) as Hother
    by (intros j Hj Hne; apply flag_claimed_ne; lia).
  exists w1. split; [by apply free_slot|]. split.
  - intros c0 (Hc0 & Hf0 & Hlow0).
    assert (c0 <> c) as Hne by (intros ->; congruence).
    eexists. apply alloc_claims; [done|].
    destruct (Z.min_spec c c0) as [[Hlt ->]|[Hle ->]].
    + repeat split; [lia|lia|done|].
      intros j Hj. rewrite Hother by lia. apply Hlow0. lia.
    + repeat split; [lia|lia|by rewrite Hother by lia|].
      intros j Hj. rewrite Hother by lia. apply Hlow0. lia.
  - intros Hall. eexists. split.
    + apply alloc_claims; [done|].
      repeat split; [lia|lia|done|].
      intros j Hj. rewrite Hother by lia. apply Hall. lia.
    + cbn [heap after_critical_section w1].
      by apply (set_flag_back w c true).
Qed.

(** ** Contention without end *)

Lemma pool_ok_same_heap (p_obj : nrf_802154_buffer_allocator_t) (w : world) :
  pool_ok p_obj w -> pool_ok p_obj (after_critical_section (heap w) w).
Proof. by intros (? & ? & ?). Qed.

(** One round against the contender: the handler frees slot 0 before the
    check, takes it in the window, and the re-check sends the call into
    another round. *)
Lemma contender_round (p_obj : nrf_802154_buffer_allocator_t) (w : world)
  (steps round : nat) (l : locals) :
  pool_ok p_obj w -> 0 < capacity p_obj -> PRIMASK w = false ->
  exists l' w',
    for_loop (contender p_obj) (p_memory p_obj) (capacity p_obj) (S steps) round 0 l w
    = Ret (l', w') /\
    retry l' = true /\ pool_ok p_obj w' /\ PRIMASK w' = false.
Proof.
  intros Hok Hcap Hmask.
  pose proof Hok as (Hcapr & Hlen & _).
  set (w0 := after_critical_section (set_flag 0 false (heap w)) w).
  set (w1 := after_critical_section (set_flag 0 true (heap w0)) w0).
  assert (pool_ok p_obj w0) as Hok0 by (by apply pool_ok_after).
  assert (pool_ok p_obj w1) as Hok1 by (by apply pool_ok_after).
  destruct (flag_is_Some w 0) as [v Hv]; [lia|].
  assert (flag w0 0 = Some false) as Hf0 by (by apply (flag_claimed_eq w 0 false v)).
  assert (flag w1 0 = Some true) as Hf1 by (by apply (flag_claimed_eq w0 0 true false)).
  assert (preempt (contender p_obj) (BeforeCheck round 0) w = w0) as Hbefore.
  { unfold preempt, contender, isr_free. rewrite Hmask.
    by rewrite (free_slot p_obj w 0 Hok) by lia. }
  assert (preempt (contender p_obj) (Window round) w0 = w1) as Hwindow.
  { unfold preempt, contender, isr_alloc.
    replace (PRIMASK w0) with false by done.
    rewrite (alloc_claims p_obj w0 0 Hok0); [done|].
    repeat split; [lia|lia|done|intros; lia]. }
  eexists _, _. split.
  - cbn [for_loop].
    replace (0 <? capacity p_obj) with true by (symmetry; apply Z.ltb_lt; lia).
    rewrite Hbefore, (load_taken_flag w0 0 false Hf0), bind_ret. cbn [negb].
    rewrite Hwindow.
    rewrite (load_taken_flag (critical_section_enter w1) 0 true)
      by (by rewrite flag_critical_section_enter).
    rewrite bind_ret, critical_section_empty. reflexivity.
  - split; [done|]. split; [by apply pool_ok_same_heap|done].
Qed.

(** X9: the retry loop has no bound of its own.  Against a handler that
    releases slot 0 before every check and allocates in every window, a
    call with interrupts enabled on a pool that is not empty loses every
    race: no number of rounds and no number of loop steps lets it return. *)
Theorem contended_alloc_never_returns
  (p_obj : nrf_802154_buffer_allocator_t) (w : world) (rounds steps : nat) :
  pool_ok p_obj w -> 0 < capacity p_obj -> PRIMASK w = false ->
  buffer_alloc (contender p_obj) (p_memory p_obj) (capacity p_obj) rounds steps w
  = OutOfFuel.
Proof.
  intros Hok Hcap Hmask.
  enough (forall round l,
            do_while (contender p_obj) (p_memory p_obj) (capacity p_obj)
              rounds steps round l w = OutOfFuel) as Hloop
    by (unfold buffer_alloc, buffer_alloc_loops; by rewrite Hloop).
  revert w Hok Hmask.
  induction rounds as [|rounds IH]; intros w Hok Hmask round l; [done|].
  cbn [do_while]. destruct steps as [|steps].
  - cbn [for_loop].
    by replace (0 <? capacity p_obj) with true by (symmetry; apply Z.ltb_lt; lia).
  - destruct (contender_round p_obj w steps round (set_retry false l) Hok Hcap Hmask)
      as (l' & w' & -> & Hretry & Hok' & Hmask').
    rewrite bind_ret, Hretry. by apply IH.
Qed.

(** ** The critical section by itself *)

(** X10: a critical section restores the interrupt mask it found and
    never touches the array; inside it interrupts are masked when the lock
    is compiled in.  It keeps a single saved mask, so it does not nest: a
    section entered inside another one leaves interrupts masked after both
    exits, whatever the mask was at the start. *)
Theorem critical_section_restores_mask_but_does_not_nest (w : world) :
  PRIMASK (critical_section_exit (critical_section_enter w)) = PRIMASK w /\
  heap (critical_section_exit (critical_section_enter w)) = heap w /\
  PRIMASK (critical_section_enter w) = (if THREAD_SAFE then true else PRIMASK w) /\
  PRIMASK (critical_section_exit (critical_section_exit
             (critical_section_enter (critical_section_enter w))))
  = (if THREAD_SAFE then true else PRIMASK w).
Proof.
  unfold critical_section_exit, critical_section_enter.
  by destruct THREAD_SAFE.
Qed.

(** ** The empty pool *)

(** X11: a region too small for one slot makes an empty pool: [initialize]
    returns capacity 0 without asserting, even for null memory, and writes
    nothing; on that pool every [allocate] returns null and leaves the
    machine alone, and every [release] asserts, whatever the pointer. *)
Theorem empty_pool_allocates_nothing_and_rejects_every_release
  (mem memsize : Z) (w : world) :
  0 <= memsize < slot_size ->
  nrf_802154_buffer_allocator_init mem memsize w = Ret (Allocator mem 0, w) /\
  nrf_802154_buffer_allocator_alloc (Allocator mem 0) w = Ret (NULL, w) /\
  forall p, nrf_802154_buffer_allocator_free (Allocator mem 0) p w = AssertFail.
Proof.
  intros Hsize. split; [|split].
  - unfold nrf_802154_buffer_allocator_init.
    rewrite Z.div_small by done. by destruct w.
  - reflexivity.
  - intros p. apply free_asserts_iff. cbn [capacity p_memory].
    apply free_index_nonneg.
Qed.

End Allocator.

(** * Concrete runs

    The theorems above, applied to a pool of three slots of eight bytes at
    address 4096, with the payload at offset 0 and the thread-safe
    configuration. *)

Lemma demo_pool_ok (t0 t1 t2 : bool) : pool_ok 8 demo_pool (demo_world t0 t1 t2).
Proof. unfold pool_ok, UINT32_MOD, NULL. cbn. lia. Defined.

Lemma demo_first_free_1 (t2 : bool) : first_free demo_pool (demo_world true false t2) 1.
Proof.
  split; [cbn; lia|]. split; [reflexivity|].
  intros j Hj. assert (j = 0) as -> by lia. reflexivity.
Defined.

Lemma demo_exhausted : exhausted demo_pool (demo_world true true true).
Proof.
  intros j Hj. cbn in Hj.
  assert (j = 0 \/ j = 1 \/ j = 2) as [->|[->| ->]] by lia; reflexivity.
Defined.

Lemma demo_valid_region (t0 t1 t2 : bool) : valid_region 8 4096 30 (demo_world t0 t1 t2).
Proof.
  unfold valid_region, UINT32_MOD.
  change (30 / 8) with 3. change (2 ^ 32) with 4294967296. cbn. lia.
Defined.

Lemma alloc_claims_lowest_free_slot_witness :
  pool_ok 8 demo_pool (demo_world true false true) /\
  (exists i, 0 <= i < capacity demo_pool /\ flag (demo_world true false true) i = Some false) /\
  exists c,
    first_free demo_pool (demo_world true false true) c /\
    (exists w',
       nrf_802154_buffer_allocator_alloc 8 0 true demo_pool (demo_world true false true)
       = Ret (payload 8 0 (p_memory demo_pool) c, w') /\
       heap w' = set_flag c true (heap (demo_world true false true)) /\
       PRIMASK w' = PRIMASK (demo_world true false true) /\
       flag w' c = Some true /\
       forall j, 0 <= j -> j <> c -> flag w' j = flag (demo_world true false true) j) /\
    (forall f : world -> world,
       PRIMASK (demo_world true false true) = false ->
       capacity demo_pool <= Z.of_nat (length (heap (f (demo_world true false true)))) ->
       flag (f (demo_world true false true)) c = Some true ->
       (forall c', first_free demo_pool (f (demo_world true false true)) c' ->
          exists w',
            buffer_alloc 8 0 true (at_window 0 f) (p_memory demo_pool) (capacity demo_pool)
              2 (Z.to_nat (capacity demo_pool)) (demo_world true false true)
            = Ret (payload 8 0 (p_memory demo_pool) c', w') /\
            heap w' = set_flag c' true (heap (f (demo_world true false true)))) /\
       (exhausted demo_pool (f (demo_world true false true)) ->
          exists w',
            buffer_alloc 8 0 true (at_window 0 f) (p_memory demo_pool) (capacity demo_pool)
              2 (Z.to_nat (capacity demo_pool)) (demo_world true false true)
            = Ret (NULL, w') /\
            heap w' = heap (f (demo_world true false true)))).
Proof.
  assert (exists i, 0 <= i < capacity demo_pool /\
                    flag (demo_world true false true) i = Some false) as Hex
    by (exists 1; split; [cbn; lia|reflexivity]).
  split; [apply demo_pool_ok|]. split; [exact Hex|].
  apply (alloc_claims_lowest_free_slot 8 0 true); [lia|apply demo_pool_ok|exact Hex].
Defined.

Lemma init_clears_every_flag_witness :
  valid_region 8 4096 30 (demo_world true true false) /\
  (30 / 8 = 0 \/ 4096 <> NULL) /\
  let cap := 30 / 8 in
  cap = 30 ÷ 8 /\
  cap * 8 <= 30 < (cap + 1) * 8 /\
  nrf_802154_buffer_allocator_init 8 4096 30 (demo_world true true false)
  = Ret (Allocator 4096 cap,
         World (clear_flags (Z.to_nat cap) (heap (demo_world true true false)))
           (PRIMASK (demo_world true true false))
           (m_critical_section (demo_world true true false))) /\
  forall (i : nat) (b : nrf_802154_buffer_t),
    heap (demo_world true true false) !! i = Some b ->
    clear_flags (Z.to_nat cap) (heap (demo_world true true false)) !! i
    = Some (if decide (Z.of_nat i < cap) then Buffer (data b) false else b).
Proof.
  assert (30 / 8 = 0 \/ 4096 <> NULL) as Hassert by (right; unfold NULL; lia).
  split; [apply demo_valid_region|]. split; [exact Hassert|].
  apply (init_clears_every_flag 8); [lia|apply demo_valid_region|exact Hassert].
Defined.

Lemma alloc_capacity_times_then_null_witness :
  valid_region 8 4096 30 (demo_world true true false) /\
  nrf_802154_buffer_allocator_init 8 4096 30 (demo_world true true false)
  = Ret (demo_pool, demo_world false false false) /\
  0 = 0 /\
  exists (ptrs : list Z) (w' : world),
    alloc_n 8 0 true (Z.to_nat (capacity demo_pool)) demo_pool (demo_world false false false)
    = Ret (ptrs, w') /\
    ptrs = payload 8 0 (p_memory demo_pool) <$> seqZ 0 (capacity demo_pool) /\
    Z.of_nat (length ptrs) = capacity demo_pool /\
    NoDup ptrs /\
    Forall (fun p =>
              p <> NULL /\
              p_memory demo_pool <= p < p_memory demo_pool + capacity demo_pool * 8 /\
              (p - p_memory demo_pool) mod 8 = 0) ptrs /\
    nrf_802154_buffer_allocator_alloc 8 0 true demo_pool w' = Ret (NULL, w').
Proof.
  assert (nrf_802154_buffer_allocator_init 8 4096 30 (demo_world true true false)
          = Ret (demo_pool, demo_world false false false)) as Hinit by reflexivity.
  split; [apply demo_valid_region|]. split; [exact Hinit|]. split; [reflexivity|].
  apply (alloc_capacity_times_then_null 8 0 true ltac:(lia) ltac:(lia)
           4096 30 (demo_world true true false));
    [apply demo_valid_region|exact Hinit|reflexivity].
Defined.

Lemma alloc_null_iff_exhausted_witness :
  pool_ok 8 demo_pool (demo_world true true true) /\
  exists r w',
    nrf_802154_buffer_allocator_alloc 8 0 true demo_pool (demo_world true true true)
    = Ret (r, w') /\
    (r = NULL <-> exhausted demo_pool (demo_world true true true)) /\
    (r = NULL -> w' = demo_world true true true) /\
    (capacity demo_pool = 0 -> r = NULL).
Proof.
  split; [apply demo_pool_ok|].
  apply (alloc_null_iff_exhausted 8 0 true); [lia|lia|apply demo_pool_ok].
Defined.

Lemma release_clears_exactly_one_flag_witness :
  pool_ok 8 demo_pool (demo_world true true false) /\
  0 <= 1 < capacity demo_pool /\
  flag (demo_world true true false) 1 = Some true /\
  let handle := payload 8 0 (p_memory demo_pool) 1 in
  wrap32 (handle - p_memory demo_pool) / 8 = 1 /\
  exists w',
    nrf_802154_buffer_allocator_free 8 true demo_pool handle (demo_world true true false)
    = Ret w' /\
    heap w' = set_flag 1 false (heap (demo_world true true false)) /\
    PRIMASK w' = PRIMASK (demo_world true true false) /\
    flag w' 1 = Some false /\
    forall j, 0 <= j -> j <> 1 -> flag w' j = flag (demo_world true true false) j.
Proof.
  assert (0 <= 1 < capacity demo_pool) as Hc by (cbn; lia).
  split; [apply demo_pool_ok|]. split; [exact Hc|]. split; [reflexivity|].
  apply (release_clears_exactly_one_flag 8 0 true);
    [lia|lia|apply demo_pool_ok|exact Hc|reflexivity].
Defined.

Lemma alloc_release_round_trip_witness :
  pool_ok 8 demo_pool (demo_world false false false) /\
  (forall (p : Z) (w1 : world),
     nrf_802154_buffer_allocator_alloc 8 0 true demo_pool (demo_world false false false)
     = Ret (p, w1) ->
     p <> NULL ->
     exists w2 w3,
       nrf_802154_buffer_allocator_free 8 true demo_pool p w1 = Ret w2 /\
       (forall j, 0 <= j -> flag w2 j = flag (demo_world false false false) j) /\
       nrf_802154_buffer_allocator_alloc 8 0 true demo_pool w2 = Ret (p, w3)) /\
  (capacity demo_pool = 3 ->
   (forall j, 0 <= j < 3 -> flag (demo_world false false false) j = Some false) ->
   let s0 := payload 8 0 (p_memory demo_pool) 0 in
   let s1 := payload 8 0 (p_memory demo_pool) 1 in
   let s2 := payload 8 0 (p_memory demo_pool) 2 in
   NoDup [s0; s1; s2] /\ s0 <> NULL /\ s1 <> NULL /\ s2 <> NULL /\
   exists w',
     scenario 8 0 true demo_pool (demo_world false false false)
     = Ret ([s0; s1; s2; NULL; s1; s0; s1; s2], w') /\
     forall j, 0 <= j < 3 -> flag w' j = Some true).
Proof.
  split; [apply demo_pool_ok|].
  apply (alloc_release_round_trip 8 0 true); [lia|lia|apply demo_pool_ok].
Defined.

Lemma assertions_guard_null_memory_and_index_witness :
  0 < 8 /\
  let idx := wrap32 (4104 - p_memory demo_pool) / 8 in
  (nrf_802154_buffer_allocator_init 8 0 30 (demo_world true false false) = AssertFail
   <-> 30 / 8 <> 0 /\ 0 = NULL) /\
  (nrf_802154_buffer_allocator_free 8 true demo_pool 4104 (demo_world true false false)
   = AssertFail
   <-> capacity demo_pool <= idx) /\
  (idx < capacity demo_pool <= Z.of_nat (length (heap (demo_world true false false))) ->
   nrf_802154_buffer_allocator_free 8 true demo_pool 4104 (demo_world true false false)
   = Ret (after_critical_section true
            (set_flag idx false (heap (demo_world true false false)))
            (demo_world true false false))).
Proof.
  split; [lia|].
  apply (assertions_guard_null_memory_and_index 8 true). lia.
Defined.

Lemma operations_are_bounded_by_capacity_witness :
  pool_ok 8 demo_pool (demo_world true false true) /\
  let base := p_memory demo_pool in
  let cap := capacity demo_pool in
  (exists l w',
     for_loop 8 true idle base cap (Z.to_nat cap) 0 0 (set_retry false initial_locals)
       (demo_world true false true)
     = Ret (l, w') /\ retry l = false) /\
  (exists r w',
     nrf_802154_buffer_allocator_alloc 8 0 true demo_pool (demo_world true false true)
     = Ret (r, w') /\
     forall rounds steps : nat,
       (1 <= rounds)%nat -> (Z.to_nat cap <= steps)%nat ->
       buffer_alloc 8 0 true idle base cap rounds steps (demo_world true false true)
       = Ret (r, w')) /\
  (forall p,
     nrf_802154_buffer_allocator_free 8 true demo_pool p (demo_world true false true)
     = AssertFail \/
     exists w',
       nrf_802154_buffer_allocator_free 8 true demo_pool p (demo_world true false true)
       = Ret w') /\
  (forall mem memsize,
     valid_region 8 mem memsize (demo_world true false true) ->
     nrf_802154_buffer_allocator_init 8 mem memsize (demo_world true false true)
     = AssertFail \/
     exists p_obj' w',
       nrf_802154_buffer_allocator_init 8 mem memsize (demo_world true false true)
       = Ret (p_obj', w')).
Proof.
  split; [apply demo_pool_ok|].
  apply (operations_are_bounded_by_capacity 8 0 true); [lia|apply demo_pool_ok].
Defined.

Lemma no_double_allocation_witness :
  pool_ok 8 demo_pool (demo_world true false false) /\
  PRIMASK (demo_world true false false) = false /\
  first_free demo_pool (demo_world true false false) 1 /\
  let base := p_memory demo_pool in
  let cap := capacity demo_pool in
  (exists w_isr r_main w_end,
     nrf_802154_buffer_allocator_alloc 8 0 true demo_pool (demo_world true false false)
     = Ret (payload 8 0 base 1, w_isr) /\
     isr_alloc 8 0 true demo_pool (demo_world true false false) = w_isr /\
     buffer_alloc 8 0 true (at_window 0 (isr_alloc 8 0 true demo_pool)) base cap
       2 (Z.to_nat cap) (demo_world true false false)
     = Ret (r_main, w_end) /\
     r_main <> payload 8 0 base 1 /\
     flag w_end 1 = Some true /\
     (r_main = NULL /\ exhausted demo_pool w_isr \/
      exists c', c' <> 1 /\ first_free demo_pool w_isr c' /\
                 r_main = payload 8 0 base c' /\ flag w_end c' = Some true)) /\
  (true = true ->
   forall (env : environment) (rounds steps : nat) (r : Z) (w' : world),
     buffer_alloc 8 0 true env base cap rounds steps (demo_world true false false)
     = Ret (r, w') ->
     r <> NULL ->
     exists c' q,
       c' < cap /\ PRIMASK q = true /\ flag q c' = Some false /\
       r = payload 8 0 base c' /\
       w' = critical_section_exit true (set_heap (set_flag c' true (heap q)) q)).
Proof.
  split; [apply demo_pool_ok|]. split; [reflexivity|]. split; [apply demo_first_free_1|].
  apply (no_double_allocation 8 0 true);
    [lia|lia|apply demo_pool_ok|reflexivity|apply demo_first_free_1].
Defined.

Lemma alloc_failure_path_is_safe_witness :
  0 <= 0 < UINT32_MOD /\
  exhausted (Allocator NULL 0) (World [] false false) /\
  exists l,
    buffer_alloc_loops 8 true idle NULL 0 1 (Z.to_nat 0) (World [] false false)
    = Ret (l, World [] false false) /\
    success l = false /\
    (0 = 0 -> p_buffer l = NULL) /\
    return_value 0 l = Ret NULL /\
    nrf_802154_buffer_allocator_alloc 8 0 true (Allocator NULL 0) (World [] false false)
    = Ret (NULL, World [] false false).
Proof.
  assert (0 <= 0 < UINT32_MOD) as Hcap by (unfold UINT32_MOD; lia).
  assert (exhausted (Allocator NULL 0) (World [] false false)) as Hall
    by (intros j Hj; cbn in Hj; lia).
  split; [exact Hcap|]. split; [exact Hall|].
  apply (alloc_failure_path_is_safe 8 0 true NULL 0); [exact Hcap|exact Hall].
Defined.

(** C7 as the specification words it does not hold of the code: a handle
    is released a second time, and an address inside slot 0 that is not
    slot-aligned is released, and both calls return instead of asserting. *)
Lemma release_accepts_double_free_and_misaligned_handle :
  nrf_802154_buffer_allocator_alloc 8 0 true demo_pool (demo_world false false false)
  = Ret (4096, demo_world true false false) /\
  nrf_802154_buffer_allocator_free 8 true demo_pool 4096 (demo_world true false false)
  = Ret (demo_world false false false) /\
  nrf_802154_buffer_allocator_free 8 true demo_pool 4096 (demo_world false false false)
  = Ret (demo_world false false false) /\
  nrf_802154_buffer_allocator_free 8 true demo_pool 4099 (demo_world true false false)
  = Ret (demo_world false false false).
Proof. repeat split; reflexivity. Qed.

(** A lost race sends the scan back to slot 0.  Slot 0 is taken and slot 1
    is the candidate; in the window a handler releases slot 0 and takes
    slot 1; the interrupted call then claims slot 0, not slot 2. *)
Example lost_race_claims_slot_below_candidate :
  buffer_alloc 8 0 true (at_window 0 (fun _ => demo_world false true false))
    4096 3 2 3 (demo_world true false false)
  = Ret (4096, demo_world true true false).
Proof. reflexivity. Qed.

(** Without the lock the re-check does not help: when the critical section
    is compiled out and the handler runs between the re-check and the
    store, both contexts are handed slot 0. *)
Example without_lock_slot_is_handed_out_twice :
  nrf_802154_buffer_allocator_alloc 8 0 false demo_pool (demo_world false false false)
  = Ret (4096, demo_world true false false) /\
  buffer_alloc 8 0 false
    (fun s w => match s with
                | Locked _ => isr_alloc 8 0 false demo_pool w
                | _ => w
                end)
    4096 3 1 3 (demo_world false false false)
  = Ret (4096, demo_world true false false).
Proof. split; reflexivity. Qed.

(** ** Concrete runs of the further properties *)



Lemma alloc_with_interrupts_masked_is_sequential_witness :
  PRIMASK (World (demo_heap true false false) true false) = true /\
  buffer_alloc 8 0 true (contender 8 0 true demo_pool) 4096 3 2 3
    (World (demo_heap true false false) true false)
  = buffer_alloc 8 0 true idle 4096 3 2 3 (World (demo_heap true false false) true false).
Proof.
  split; [reflexivity|].
  apply (alloc_with_interrupts_masked_is_sequential 8 0 true). reflexivity.
Defined.


Lemma operations_never_write_payload_witness :
  nrf_802154_buffer_allocator_alloc 8 0 true demo_pool (demo_world true false false)
  = Ret (4104, demo_world true true false) /\
  nrf_802154_buffer_allocator_free 8 true demo_pool 4096 (demo_world true false false)
  = Ret (demo_world false false false) /\
  nrf_802154_buffer_allocator_init 8 4096 30 (demo_world true false false)
  = Ret (demo_pool, demo_world false false false) /\
  data <$> heap (demo_world true true false) = data <$> heap (demo_world true false false) /\
  data <$> heap (demo_world false false false) = data <$> heap (demo_world true false false).
Proof.
  assert (nrf_802154_buffer_allocator_alloc 8 0 true demo_pool (demo_world true false false)
          = Ret (4104, demo_world true true false)) as Halloc by reflexivity.
  assert (nrf_802154_buffer_allocator_free 8 true demo_pool 4096 (demo_world true false false)
          = Ret (demo_world false false false)) as Hfree by reflexivity.
  assert (nrf_802154_buffer_allocator_init 8 4096 30 (demo_world true false false)
          = Ret (demo_pool, demo_world false false false)) as Hinit by reflexivity.
  destruct (operations_never_write_payload 8 0 true demo_pool (demo_world true false false))
    as (Ha & Hf & Hi).
  split; [exact Halloc|]. split; [exact Hfree|]. split; [exact Hinit|].
  split; [exact (Ha _ _ Halloc)|exact (Hf _ _ Hfree)].
Defined.

Lemma release_asserts_exactly_outside_the_pool_witness :
  pool_ok 8 demo_pool (demo_world true true false) /\
  0 <= 4109 < UINT32_MOD /\
  let base := p_memory demo_pool in
  let cap := capacity demo_pool in
  (nrf_802154_buffer_allocator_free 8 true demo_pool 4109 (demo_world true true false)
   = AssertFail
   <-> ~ (base <= 4109 < base + cap * 8)) /\
  (forall c,
     0 <= c < cap ->
     base + c * 8 <= 4109 < base + (c + 1) * 8 ->
     nrf_802154_buffer_allocator_free 8 true demo_pool 4109 (demo_world true true false)
     = Ret (after_critical_section true
              (set_flag c false (heap (demo_world true true false)))
              (demo_world true true false))).
Proof.
  assert (0 <= 4109 < UINT32_MOD) as Hp by (unfold UINT32_MOD; lia).
  split; [apply demo_pool_ok|]. split; [exact Hp|].
  apply (release_asserts_exactly_outside_the_pool 8 true); [lia|apply demo_pool_ok|exact Hp].
Defined.

Lemma release_twice_is_release_once_witness :
  nrf_802154_buffer_allocator_free 8 true demo_pool 4104 (demo_world true true false)
  = Ret (demo_world true false false) /\
  nrf_802154_buffer_allocator_free 8 true demo_pool 4104 (demo_world true false false)
  = Ret (demo_world true false false).
Proof.
  assert (nrf_802154_buffer_allocator_free 8 true demo_pool 4104 (demo_world true true false)
          = Ret (demo_world true false false)) as Hrun by reflexivity.
  split; [exact Hrun|].
  exact (release_twice_is_release_once 8 true _ _ _ _ Hrun).
Defined.

Lemma taken_count_follows_the_calls_witness :
  pool_ok 8 demo_pool (demo_world true false true) /\
  (forall r w',
     nrf_802154_buffer_allocator_alloc 8 0 true demo_pool (demo_world true false true)
     = Ret (r, w') ->
     taken_count (heap w')
     = (taken_count (heap (demo_world true false true))
        + (if decide (r = NULL) then 0 else 1))%nat) /\
  (forall c v w',
     0 <= c < capacity demo_pool -> flag (demo_world true false true) c = Some v ->
     nrf_802154_buffer_allocator_free 8 true demo_pool (payload 8 0 (p_memory demo_pool) c)
       (demo_world true false true) = Ret w' ->
     (taken_count (heap w') + Nat.b2n v)%nat
     = taken_count (heap (demo_world true false true))).
Proof.
  split; [apply demo_pool_ok|].
  apply (taken_count_follows_the_calls 8 0 true); [lia|lia|apply demo_pool_ok].
Defined.

Lemma release_then_alloc_returns_lowest_witness :
  pool_ok 8 demo_pool (demo_world true true true) /\
  0 <= 1 < capacity demo_pool /\
  flag (demo_world true true true) 1 = Some true /\
  exists w1,
    nrf_802154_buffer_allocator_free 8 true demo_pool (payload 8 0 (p_memory demo_pool) 1)
      (demo_world true true true) = Ret w1 /\
    (forall c0, first_free demo_pool (demo_world true true true) c0 ->
       exists w2,
         nrf_802154_buffer_allocator_alloc 8 0 true demo_pool w1
         = Ret (payload 8 0 (p_memory demo_pool) (Z.min 1 c0), w2)) /\
    (exhausted demo_pool (demo_world true true true) ->
       exists w2,
         nrf_802154_buffer_allocator_alloc 8 0 true demo_pool w1
         = Ret (payload 8 0 (p_memory demo_pool) 1, w2) /\
         heap w2 = heap (demo_world true true true)).
Proof.
  assert (0 <= 1 < capacity demo_pool) as Hc by (cbn; lia).
  split; [apply demo_pool_ok|]. split; [exact Hc|]. split; [reflexivity|].
  apply (release_then_alloc_returns_lowest 8 0 true);
    [lia|lia|apply demo_pool_ok|exact Hc|reflexivity].
Defined.

Lemma contended_alloc_never_returns_witness :
  pool_ok 8 demo_pool (demo_world true false false) /\
  0 < capacity demo_pool /\
  PRIMASK (demo_world true false false) = false /\
  buffer_alloc 8 0 true (contender 8 0 true demo_pool) (p_memory demo_pool)
    (capacity demo_pool) 5 3 (demo_world true false false)
  = OutOfFuel.
Proof.
  assert (0 < capacity demo_pool) as Hcap by (cbn; lia).
  split; [apply demo_pool_ok|]. split; [exact Hcap|]. split; [reflexivity|].
  apply (contended_alloc_never_returns 8 0 true);
    [lia|lia|apply demo_pool_ok|exact Hcap|reflexivity].
Defined.

Lemma empty_pool_allocates_nothing_and_rejects_every_release_witness :
  0 <= 5 < 8 /\
  nrf_802154_buffer_allocator_init 8 NULL 5 (World [] false false)
  = Ret (Allocator NULL 0, World [] false false) /\
  nrf_802154_buffer_allocator_alloc 8 0 true (Allocator NULL 0) (World [] false false)
  = Ret (NULL, World [] false false) /\
  forall p,
    nrf_802154_buffer_allocator_free 8 true (Allocator NULL 0) p (World [] false false)
    = AssertFail.
Proof.
  assert (0 <= 5 < 8) as Hsize by lia.
  split; [exact Hsize|].
  apply (empty_pool_allocates_nothing_and_rejects_every_release 8 0 true);
    [lia|exact Hsize].
Defined.
